(** * A shallow embedding of [stack.py]: a linked-frame stack with an O(1) [min]

    The development follows the source file top to bottom: the Python values
    the stack stores and compares, the exception classes, the [StackFrame]
    named tuple and the sentinel, and then each method of [class Stack] as a
    state transformer that may raise. *)

From Stdlib Require Import List ZArith Bool String Ascii Lia Arith.
Import ListNotations.
Local Open Scope Z_scope.
Local Open Scope string_scope.
Local Open Scope list_scope.

(** ** Python values

    The fragment of Python's value universe the stack is exercised with:
    [None], integers, strings, tuples and lists.  A [StackFrame] is a
    [namedtuple], hence a tuple of length two: [==] and [<=] cannot tell it
    from the plain tuple with the same items, and so it is a [VTuple] here.
    Floats and objects with user-defined comparison are left out: on every
    value here [==] is reflexive, which [float('nan')] is not.  A set of
    values totally ordered by [<=] has no such element, and what is proved
    below of the auxiliary chain is proved for such sets. *)

#[warnings="-register-all"]
Inductive pyval : Type :=
| VNone
| VInt (z : Z)
| VStr (s : string)
| VTuple (items : list pyval)
| VList (items : list pyval).

(** Item-wise walk shared by the sequence cases of [==]. *)
Definition seq_eqb_with (eqb : pyval -> pyval -> bool) : list pyval -> list pyval -> bool :=
  fix go (xs ys : list pyval) {struct xs} : bool :=
    match xs, ys with
    | [], [] => true
    | x :: xs', y :: ys' => eqb x y && go xs' ys'
    | _, _ => false
    end.

(** Python's [==] on these values. *)
Fixpoint value_eqb (x y : pyval) {struct x} : bool :=
  match x, y with
  | VNone, VNone => true
  | VInt a, VInt b => Z.eqb a b
  | VStr a, VStr b => String.eqb a b
  | VTuple xs, VTuple ys => seq_eqb_with value_eqb xs ys
  | VList xs, VList ys => seq_eqb_with value_eqb xs ys
  | _, _ => false
  end.

(** Lexicographic [<=] of two sequences: the first pair of items that differ
    under [==] decides, by their own [<=]; when one sequence is a prefix of the
    other the lengths decide. *)
Definition seq_le_with (le : pyval -> pyval -> option bool) : list pyval -> list pyval -> option bool :=
  fix go (xs ys : list pyval) {struct xs} : option bool :=
    match xs, ys with
    | [], _ => Some true
    | _ :: _, [] => Some false
    | x :: xs', y :: ys' => if value_eqb x y then go xs' ys' else le x y
    end.

(** Python's [<=]; [None] stands for the [TypeError] that an unsupported pair
    of operands raises. *)
Fixpoint py_le (x y : pyval) {struct x} : option bool :=
  match x, y with
  | VInt a, VInt b => Some (Z.leb a b)
  | VStr a, VStr b => Some (String.leb a b)
  | VTuple xs, VTuple ys => seq_le_with py_le xs ys
  | VList xs, VList ys => seq_le_with py_le xs ys
  | _, _ => None
  end.

(** The characters of a string, as Python yields them: strings of length 1. *)
Fixpoint chars (s : string) : list pyval :=
  match s with
  | EmptyString => []
  | String c s' => VStr (String c EmptyString) :: chars s'
  end.

(** [iter(v)] run to exhaustion; [None] stands for the [TypeError] raised on a
    value that is not iterable. *)
Definition iterate (v : pyval) : option (list pyval) :=
  match v with
  | VTuple items => Some items
  | VList items => Some items
  | VStr s => Some (chars s)
  | VNone => None
  | VInt _ => None
  end.

(** ** Exceptions *)

Inductive exn : Type :=
| EmptyStackPopError
| IncomparableValueError
| ProtectedValueError (protected_val_name : string)
| TypeError
| ValueError
| IndexError
| AttributeError
| StopIteration
| RecursionBound.

(** [except TypeError] catches [TypeError] and its subclass
    [IncomparableValueError]. *)
Definition is_TypeError (e : exn) : bool :=
  match e with
  | TypeError | IncomparableValueError => true
  | _ => false
  end.

Inductive result (A : Type) : Type :=
| Ok (a : A)
| Raise (e : exn).
Arguments Ok {A} a.
Arguments Raise {A} e.

(** ** StackFrame and the sentinel *)

Definition StackFrame (subframe value : pyval) : pyval := VTuple [subframe; value].

Definition _SENTINEL : pyval := StackFrame (VTuple []) VNone.

(** Tuple unpacking [a, b = v]. *)
Definition unpack2 (v : pyval) : result (pyval * pyval) :=
  match iterate v with
  | None => Raise TypeError
  | Some [a; b] => Ok (a, b)
  | Some _ => Raise ValueError
  end.

(** Attribute access [frame.value]: the second field of a [StackFrame]; the
    empty tuple has no such attribute. *)
Definition get_value (frame : pyval) : result pyval :=
  match frame with
  | VTuple [_; v] => Ok v
  | _ => Raise AttributeError
  end.

(** ** A state-and-exception monad for the methods

    A method runs on the instance [self], may assign its attributes, and
    either returns or raises; what it assigned before raising stays
    assigned. *)

Module Stack.

Record t : Type := mk {
  top : pyval;
  top_min : pyval;
  iter_curr : option pyval  (* absent until [__iter__] first assigns it *)
}.

Definition M (A : Type) : Type := t -> t * result A.

Definition ret {A} (a : A) : M A := fun self => (self, Ok a).
Definition raise {A} (e : exn) : M A := fun self => (self, Raise e).
Definition bind {A B} (c : M A) (k : A -> M B) : M B :=
  fun self =>
    match c self with
    | (self', Ok a) => k a self'
    | (self', Raise e) => (self', Raise e)
    end.
Definition lift {A} (r : result A) : M A := fun self => (self, r).

(** [try: c  except <caught>: handler] *)
Definition try_except {A} (c : M A) (caught : exn -> bool) (handler : M A) : M A :=
  fun self =>
    match c self with
    | (self', Ok a) => (self', Ok a)
    | (self', Raise e) => if caught e then handler self' else (self', Raise e)
    end.

Definition get {A} (field : t -> A) : M A := fun self => (self, Ok (field self)).
Definition set_top (v : pyval) : M unit :=
  fun self => (mk v (top_min self) (iter_curr self), Ok tt).
Definition set_top_min (v : pyval) : M unit :=
  fun self => (mk (top self) v (iter_curr self), Ok tt).
Definition set_iter_curr (v : pyval) : M unit :=
  fun self => (mk (top self) (top_min self) (Some v), Ok tt).

Notation "x <- c ;; k" := (bind c (fun x => k))
  (at level 61, c at next level, right associativity).
Notation "' pat <- c ;; k" := (bind c (fun x => match x with pat => k end))
  (at level 61, pat pattern, c at next level, right associativity).
Notation "c ;;; k" := (bind c (fun _ => k))
  (at level 61, right associativity).

(** ** class Stack *)

Definition _SENTINEL : pyval := _SENTINEL.

(** [self.top == type(self)._SENTINEL] *)
Definition is_empty (self : t) : bool := value_eqb (top self) _SENTINEL.

Definition push (new_top : pyval) : M unit :=
  if value_eqb new_top _SENTINEL then
    raise (ProtectedValueError ("Stack" ++ "._SENTINEL"))
  else
    old_top <- get top ;;
    set_top (StackFrame old_top new_top) ;;;
    try_except
      (aux <- get top_min ;;
       extend <- (if value_eqb aux _SENTINEL then ret true
                  else
                    cur_min <- lift (get_value aux) ;;
                    match py_le new_top cur_min with
                    | Some b => ret b
                    | None => raise TypeError
                    end) ;;
       if extend : bool then set_top_min (StackFrame aux new_top) else ret tt)
      is_TypeError
      (raise IncomparableValueError).

Definition pop : M pyval :=
  empty <- get is_empty ;;
  if empty : bool then raise EmptyStackPopError
  else
    cur <- get top ;;
    '(below, old_top) <- lift (unpack2 cur) ;;
    set_top below ;;;
    aux <- get top_min ;;
    aux_value <- lift (get_value aux) ;;
    (if value_eqb aux_value old_top then
       '(aux_below, _) <- lift (unpack2 aux) ;;
       set_top_min aux_below
     else ret tt) ;;;
    ret old_top.

Definition min : M pyval :=
  aux <- get top_min ;;
  lift (get_value aux).

Definition __iter__ : M unit :=
  cur <- get top ;;
  set_iter_curr cur.

Definition __next__ : M pyval :=
  cursor <- get iter_curr ;;
  match cursor with
  | None => raise AttributeError
  | Some cur =>
      if negb (value_eqb cur _SENTINEL) then
        '(below, next_value) <- lift (unpack2 cur) ;;
        set_iter_curr below ;;;
        ret next_value
      else raise StopIteration
  end.

(** The loop of a consumer of the iterator ([list(...)], [for], [join]):
    call [__next__] until it raises [StopIteration].  [fuel] bounds the
    number of calls; [RecursionBound] marks its exhaustion and is no Python
    exception. *)
Fixpoint drain (fuel : nat) : M (list pyval) :=
  match fuel with
  | O => raise RecursionBound
  | S fuel' =>
      fun self =>
        match __next__ self with
        | (self', Ok v) => (rest <- drain fuel' ;; ret (v :: rest)) self'
        | (self', Raise StopIteration) => (self', Ok [])
        | (self', Raise e) => (self', Raise e)
        end
  end.

(** Size of a value: each unpacking of a cursor yields a strictly smaller
    one, so [S (vsize cursor)] calls of [__next__] always suffice. *)
Fixpoint vsize (v : pyval) : nat :=
  match v with
  | VNone => 1
  | VInt _ => 1
  | VStr s => S (String.length s)
  | VTuple items => S (list_sum (map vsize items))
  | VList items => S (list_sum (map vsize items))
  end.

(** [list(self)]: [iter(self)] and then the loop. *)
Definition to_list : M (list pyval) :=
  __iter__ ;;;
  cur <- get top ;;
  drain (S (vsize cur)).

(** [seq[-1]] *)
Definition last_item (seq : list pyval) : result pyval :=
  match rev seq with
  | v :: _ => Ok v
  | [] => Raise IndexError
  end.

Definition bottom : M pyval :=
  empty <- get is_empty ;;
  if empty : bool then ret VNone
  else
    values <- to_list ;;
    lift (last_item values).

(** [for val in values: self.push(val)] over the items already produced by
    the iterable. *)
Fixpoint push_each (items : list pyval) : M unit :=
  match items with
  | [] => ret tt
  | val :: items' => push val ;;; push_each items'
  end.

Definition __init__ (values : list pyval) : M unit :=
  set_top _SENTINEL ;;;
  set_top_min _SENTINEL ;;;
  match values with
  | [] => ret tt
  | [values] =>
      try_except
        (match iterate values with
         | Some items => push_each items
         | None => raise TypeError
         end)
        is_TypeError
        (push values)
  | _ => raise TypeError
  end.

(** The object [__init__] receives: no attribute is assigned yet; the two
    frame attributes are overwritten by its first statement. *)
Definition blank : t := mk VNone VNone None.

(** A call of the class, [Stack(v1, ..., vn)]: the instance when [__init__] returns, the
    exception (and no instance) when it raises. *)
Definition new (values : list pyval) : result t :=
  match __init__ values blank with
  | (self, Ok _) => Ok self
  | (_, Raise e) => Raise e
  end.

End Stack.

(** ** Specification-side views of a stack *)

(** The frame chain that holds [values], topmost value first. *)
Fixpoint chain (values : list pyval) : pyval :=
  match values with
  | [] => _SENTINEL
  | v :: below => StackFrame (chain below) v
  end.

(** A linear scan of a frame chain, from its head down to the sentinel. *)
Fixpoint present_values (frame : pyval) : list pyval :=
  if value_eqb frame _SENTINEL then []
  else
    match frame with
    | VTuple [subframe; v] => v :: present_values subframe
    | _ => []
    end.

(** The values the auxiliary chain holds when the main chain holds [values]:
    those that were a minimum-or-tie at the time they were pushed. *)
Fixpoint aux_of (values : list pyval) : list pyval :=
  match values with
  | [] => []
  | v :: below =>
      match aux_of below with
      | [] => [v]
      | cur_min :: _ =>
          match py_le v cur_min with
          | Some true => v :: aux_of below
          | _ => aux_of below
          end
      end
  end.

(** Every push that built [values] could compare its value with the minimum
    below it. *)
Fixpoint pushes_defined (values : list pyval) : Prop :=
  match values with
  | [] => True
  | v :: below =>
      pushes_defined below /\
      forall cur_min, hd_error (aux_of below) = Some cur_min -> py_le v cur_min <> None
  end.

(** [m] is a least element of [values] under [<=]. *)
Definition is_minimum (m : pyval) (values : list pyval) : Prop :=
  In m values /\ forall x, In x values -> py_le m x = Some true.

(** A set of values totally ordered by [<=]. *)
Record total_order (P : pyval -> Prop) : Prop := {
  to_defined : forall x y, P x -> P y -> py_le x y <> None;
  to_total : forall x y, P x -> P y -> py_le x y = Some true \/ py_le y x = Some true;
  to_trans : forall x y z, P x -> P y -> P z ->
      py_le x y = Some true -> py_le y z = Some true -> py_le x z = Some true;
  to_antisym : forall x y, P x -> P y ->
      py_le x y = Some true -> py_le y x = Some true -> value_eqb x y = true
}.

Definition is_int (v : pyval) : Prop := exists z, v = VInt z.

(** The states a program can bring a stack to: [Stack()] followed by pushes of
    values in [P] and pops that return, with any use of the iterator in
    between (which assigns [iter_curr] only). *)
Inductive reachable (P : pyval -> Prop) : Stack.t -> Prop :=
| reach_new : forall s, Stack.new [] = Ok s -> reachable P s
| reach_push : forall s v s',
    reachable P s -> P v -> Stack.push v s = (s', Ok tt) -> reachable P s'
| reach_pop : forall s v s',
    reachable P s -> Stack.pop s = (s', Ok v) -> reachable P s'
| reach_cursor : forall s cursor,
    reachable P s -> reachable P (Stack.mk (Stack.top s) (Stack.top_min s) cursor).

(** Both chains are frame chains, and the auxiliary one is the one the
    pushes of the present values build. *)
Definition well_formed (s : Stack.t) (values : list pyval) : Prop :=
  Stack.top s = chain values /\ Stack.top_min s = chain (aux_of values) /\
  pushes_defined values.

(** [n] calls of [pop()] in a row, collecting what they return. *)
Fixpoint pop_times (n : nat) : Stack.M (list pyval) :=
  match n with
  | O => Stack.ret []
  | S n' =>
      Stack.bind Stack.pop (fun v =>
      Stack.bind (pop_times n') (fun rest =>
      Stack.ret (v :: rest)))
  end.

(** A value that [push] accepts: it is not [==] to the sentinel. *)
Definition non_sentinel (v : pyval) : Prop := value_eqb v _SENTINEL = false.

(** Runs of pushes and pops that return and never empty the stack, so that
    the bottom element stays in place. *)
Inductive keeps_bottom : Stack.t -> Stack.t -> Prop :=
| keeps_refl : forall s, keeps_bottom s s
| keeps_push : forall s s1 s2 v,
    keeps_bottom s s1 -> Stack.push v s1 = (s2, Ok tt) -> keeps_bottom s s2
| keeps_pop : forall s s1 s2 v,
    keeps_bottom s s1 -> Stack.pop s1 = (s2, Ok v) -> Stack.is_empty s2 = false ->
    keeps_bottom s s2.

(** Two traversals of one stack, interleaved: the first is started and
    advanced once, [between] runs, and the first is advanced again.  The
    iterator [__iter__] returns is the stack itself, so both calls of
    [__next__] act on the instance [between] acted on. *)
Definition next_twice_with {A} (between : Stack.M A) : Stack.M (pyval * pyval) :=
  Stack.bind Stack.__iter__ (fun _ =>
  Stack.bind Stack.__next__ (fun first =>
  Stack.bind between (fun _ =>
  Stack.bind Stack.__next__ (fun second =>
  Stack.ret (first, second))))).

(** ** The remaining methods and uses of the class *)

(** [__str__]: ['->'.join(str(value) for value in self)].  The generator
    iterates [self]; [join] runs it to exhaustion and joins what it yields.
    Python's built-in [str] is taken as the parameter [str]. *)
Definition __str__ (str : pyval -> string) : Stack.M string :=
  Stack.bind Stack.to_list (fun values =>
  Stack.ret (String.concat "->" (map str values))).

(** The loop [for val in values: self.push(val)] of [__init__] when [values]
    is itself a [Stack]: each round calls [values.__next__()], which advances
    the cursor of [values], and pushes what it returns onto [self].  The
    result is the two instances and the outcome. *)
Fixpoint for_push (fuel : nat) (values self : Stack.t) : Stack.t * Stack.t * result unit :=
  match fuel with
  | O => (values, self, Raise RecursionBound)
  | S fuel' =>
      match Stack.__next__ values with
      | (values', Ok val) =>
          match Stack.push val self with
          | (self', Ok _) => for_push fuel' values' self'
          | (self', Raise e) => (values', self', Raise e)
          end
      | (values', Raise StopIteration) => (values', self, Ok tt)
      | (values', Raise e) => (values', self, Raise e)
      end
  end.

(** [Stack(values)] for a [Stack] instance [values], as in
    [test_Stack__init__with_Stack_object_argument]: the instance passed (its
    cursor is assigned) and the new instance or the exception.  The handler
    [except TypeError: self.push(values)] pushes the instance itself, which
    is no [pyval]; it is the parameter [push_instance]. *)
Definition new_from_stack (push_instance : Stack.M unit) (values : Stack.t)
  : Stack.t * result Stack.t :=
  let self := Stack.mk _SENTINEL _SENTINEL None in
  let values1 := fst (Stack.__iter__ values) in
  match for_push (S (Stack.vsize (Stack.top values))) values1 self with
  | (values', self', Ok _) => (values', Ok self')
  | (values', self', Raise e) =>
      if is_TypeError e then
        match push_instance self' with
        | (self'', Ok _) => (values', Ok self'')
        | (_, Raise e') => (values', Raise e')
        end
      else (values', Raise e)
  end.

(** [sub] is [full] with some elements left out. *)
Inductive subsequence : list pyval -> list pyval -> Prop :=
| subseq_nil : subsequence [] []
| subseq_skip : forall x sub full, subsequence sub full -> subsequence sub (x :: full)
| subseq_keep : forall x sub full, subsequence sub full -> subsequence (x :: sub) (x :: full).

(** Every value is [<=] the one beneath it. *)
Fixpoint non_increasing (values : list pyval) : Prop :=
  match values with
  | [] => True
  | v :: below =>
      match below with
      | [] => True
      | w :: _ => py_le v w = Some true
      end /\ non_increasing below
  end.

(** Any two values of [P] can be compared with [<=]. *)
Definition comparable (P : pyval -> Prop) : Prop :=
  forall x y, P x -> P y -> py_le x y <> None.

(** Both attributes hold frame chains (which the pushes of a constructor
    keep, also the ones that raise). *)
Definition chains (s : Stack.t) : Prop :=
  exists main aux, Stack.top s = chain main /\ Stack.top_min s = chain aux.

Definition is_str (v : pyval) : Prop := exists s, v = VStr s.


(** ** Facts about values *)

Section pyval_induction.
Variable Q : pyval -> Prop.
Hypothesis HNone : Q VNone.
Hypothesis HInt : forall z, Q (VInt z).
Hypothesis HStr : forall s, Q (VStr s).
Hypothesis HTuple : forall items, Forall Q items -> Q (VTuple items).
Hypothesis HList : forall items, Forall Q items -> Q (VList items).

Fixpoint pyval_nested_ind (v : pyval) : Q v :=
  match v with
  | VNone => HNone
  | VInt z => HInt z
  | VStr s => HStr s
  | VTuple items =>
      HTuple items
        ((fix go (l : list pyval) : Forall Q l :=
            match l with
            | [] => Forall_nil Q
            | x :: l' => Forall_cons x (pyval_nested_ind x) (go l')
            end) items)
  | VList items =>
      HList items
        ((fix go (l : list pyval) : Forall Q l :=
            match l with
            | [] => Forall_nil Q
            | x :: l' => Forall_cons x (pyval_nested_ind x) (go l')
            end) items)
  end.
End pyval_induction.

Lemma seq_eqb_refl (xs : list pyval) :
  Forall (fun x => value_eqb x x = true) xs -> seq_eqb_with value_eqb xs xs = true.
Proof.
  induction 1 as [|x xs Hx _ IH]; simpl; [reflexivity|].
  now rewrite Hx, IH.
Qed.

Lemma value_eqb_refl (x : pyval) : value_eqb x x = true.
Proof.
  induction x using pyval_nested_ind; simpl.
  - reflexivity.
  - apply Z.eqb_refl.
  - apply String.eqb_refl.
  - now apply seq_eqb_refl.
  - now apply seq_eqb_refl.
Qed.

Lemma seq_eqb_eq (xs : list pyval) :
  Forall (fun x => forall y, value_eqb x y = true -> x = y) xs ->
  forall ys, seq_eqb_with value_eqb xs ys = true -> xs = ys.
Proof.
  induction 1 as [|x xs Hx _ IH]; intros [|y ys]; simpl; try discriminate.
  - reflexivity.
  - intros H. apply andb_true_iff in H as [H1 H2].
    f_equal; auto.
Qed.

Lemma value_eqb_eq (x y : pyval) : value_eqb x y = true -> x = y.
Proof.
  revert y. induction x using pyval_nested_ind; intros [] Heq; simpl in Heq;
    try discriminate.
  - reflexivity.
  - apply Z.eqb_eq in Heq. now subst.
  - apply String.eqb_eq in Heq. now subst.
  - f_equal. now apply seq_eqb_eq.
  - f_equal. now apply seq_eqb_eq.
Qed.

Lemma value_eqb_neq (x y : pyval) : x <> y -> value_eqb x y = false.
Proof.
  intros Hne. destruct (value_eqb x y) eqn:E; [|reflexivity].
  now apply value_eqb_eq in E.
Qed.

Lemma seq_le_refl (xs : list pyval) : seq_le_with py_le xs xs = Some true.
Proof.
  induction xs as [|x xs IH]; simpl; [reflexivity|].
  now rewrite value_eqb_refl.
Qed.

(** [x <= x] is never [False]: it is [True] or it raises. *)
Lemma py_le_diag (x : pyval) (b : bool) : py_le x x = Some b -> b = true.
Proof.
  destruct x; simpl; try discriminate.
  - rewrite Z.leb_refl. congruence.
  - destruct (String.leb_total s s) as [E|E]; rewrite E; congruence.
  - rewrite seq_le_refl. congruence.
  - rewrite seq_le_refl. congruence.
Qed.

(** ** Facts about frame chains *)

Lemma chain_cons_not_sentinel (v : pyval) (below : list pyval) :
  value_eqb (chain (v :: below)) _SENTINEL = false.
Proof. destruct below; reflexivity. Qed.

Lemma present_values_chain (values : list pyval) :
  present_values (chain values) = values.
Proof.
  induction values as [|v below IH]; [reflexivity|].
  change (present_values (chain (v :: below)))
    with (if value_eqb (chain (v :: below)) _SENTINEL then []
          else v :: present_values (chain below)).
  now rewrite chain_cons_not_sentinel, IH.
Qed.

Lemma chain_inj (l1 l2 : list pyval) : chain l1 = chain l2 -> l1 = l2.
Proof.
  intros H. rewrite <- (present_values_chain l1), <- (present_values_chain l2).
  now rewrite H.
Qed.

Lemma get_value_chain (v : pyval) (below : list pyval) :
  get_value (chain (v :: below)) = Ok v.
Proof. reflexivity. Qed.

Lemma unpack2_chain (v : pyval) (below : list pyval) :
  unpack2 (chain (v :: below)) = Ok (chain below, v).
Proof. reflexivity. Qed.

Lemma aux_of_cons_cases (v : pyval) (below : list pyval) :
  aux_of (v :: below) = v :: aux_of below \/
  (exists cur_min rest b, aux_of below = cur_min :: rest /\
     py_le v cur_min = b /\ b <> Some true /\ aux_of (v :: below) = aux_of below).
Proof.
  simpl. destruct (aux_of below) as [|cur_min rest]; [now left|].
  destruct (py_le v cur_min) as [[|]|] eqn:E; [now left| |];
    right; exists cur_min, rest; eexists; repeat split; congruence.
Qed.

Lemma aux_of_incl (values : list pyval) : incl (aux_of values) values.
Proof.
  induction values as [|v below IH]; simpl; [easy|].
  destruct (aux_of below) as [|m rest].
  - intros x [<-|[]]. now left.
  - destruct (py_le v m) as [[|]|];
      try (apply incl_tl; exact IH).
    apply incl_cons; [now left | apply incl_tl; exact IH].
Qed.

(** ** The methods on well-formed stacks *)

Ltac run_methods :=
  cbv [Stack.bind Stack.get Stack.set_top Stack.try_except Stack.is_empty
       Stack.top Stack.top_min Stack.iter_curr Stack.lift Stack.ret Stack.raise
       Stack.set_top_min Stack.set_iter_curr Stack._SENTINEL].

Lemma new_empty_well_formed (s : Stack.t) :
  Stack.new [] = Ok s -> well_formed s [] /\ Stack.iter_curr s = None.
Proof.
  unfold Stack.new, Stack.__init__. run_methods.
  intros H. injection H as <-. now repeat split.
Qed.

Lemma push_returns (s s' : Stack.t) (v : pyval) (values : list pyval) :
  well_formed s values ->
  Stack.push v s = (s', Ok tt) ->
  well_formed s' (v :: values) /\ Stack.iter_curr s' = Stack.iter_curr s /\
  value_eqb v _SENTINEL = false.
Proof.
  destruct s as [tp tm c]. intros (Ht & Hm & Hd). simpl in Ht, Hm. subst tp tm.
  unfold Stack.push, Stack._SENTINEL.
  destruct (value_eqb v _SENTINEL) eqn:Hs; [discriminate|].
  run_methods. unfold well_formed. simpl aux_of. simpl pushes_defined.
  destruct (aux_of values) as [|cur_min rest] eqn:Ha.
  - simpl. intros H. injection H as <-. now repeat split.
  - rewrite chain_cons_not_sentinel, get_value_chain.
    destruct (py_le v cur_min) as [[|]|] eqn:Hle; simpl; intros H;
      try discriminate; injection H as <-; repeat split; trivial;
      intros m Hm; injection Hm as <-; congruence.
Qed.

Lemma push_defined (s : Stack.t) (v : pyval) (values : list pyval) :
  well_formed s values ->
  value_eqb v _SENTINEL = false ->
  (forall cur_min, In cur_min values -> py_le v cur_min <> None) ->
  exists s', Stack.push v s = (s', Ok tt).
Proof.
  destruct s as [tp tm c]. intros (Ht & Hm & _) Hs Hle. simpl in Ht, Hm. subst tp tm.
  unfold Stack.push, Stack._SENTINEL. rewrite Hs. run_methods.
  pose proof (aux_of_incl values) as Hin.
  destruct (aux_of values) as [|cur_min rest].
  - simpl. eauto.
  - rewrite chain_cons_not_sentinel, get_value_chain.
    specialize (Hle cur_min (Hin _ (or_introl eq_refl))).
    destruct (py_le v cur_min) as [[|]|]; simpl; eauto. congruence.
Qed.

Lemma pop_chain (v : pyval) (below : list pyval) (c : option pyval) :
  pushes_defined (v :: below) ->
  Stack.pop (Stack.mk (chain (v :: below)) (chain (aux_of (v :: below))) c) =
  (Stack.mk (chain below) (chain (aux_of below)) c, Ok v).
Proof.
  intros [_ Hd]. unfold Stack.pop. run_methods.
  rewrite chain_cons_not_sentinel, unpack2_chain.
  destruct (aux_of_cons_cases v below) as [E | (m & rest & b & Ea & Hle & Hb & E)];
    rewrite E.
  - rewrite get_value_chain, value_eqb_refl, unpack2_chain. reflexivity.
  - rewrite Ea, get_value_chain.
    destruct (value_eqb m v) eqn:Heq; [|reflexivity].
    apply value_eqb_eq in Heq. subst m. exfalso.
    rewrite Ea in Hd. specialize (Hd v eq_refl).
    destruct (py_le v v) as [b'|] eqn:Hvv; [|congruence].
    apply py_le_diag in Hvv. subst. congruence.
Qed.

Lemma pop_returns (s s' : Stack.t) (v : pyval) (values : list pyval) :
  well_formed s values ->
  Stack.pop s = (s', Ok v) ->
  exists below, values = v :: below /\ well_formed s' below /\
    Stack.iter_curr s' = Stack.iter_curr s.
Proof.
  destruct s as [tp tm c]. intros (Ht & Hm & Hd). simpl in Ht, Hm. subst tp tm.
  destruct values as [|x below].
  - unfold Stack.pop. run_methods. simpl. discriminate.
  - rewrite pop_chain by exact Hd. intros H. injection H as <- <-.
    exists below. repeat split. apply Hd.
Qed.

Lemma pop_empty (s : Stack.t) :
  Stack.is_empty s = true -> Stack.pop s = (s, Raise EmptyStackPopError).
Proof.
  intros H. unfold Stack.pop, Stack.bind, Stack.get. rewrite H. reflexivity.
Qed.

Lemma reachable_well_formed (P : pyval -> Prop) (s : Stack.t) :
  reachable P s -> exists values, well_formed s values /\ Forall P values.
Proof.
  induction 1 as [s Hnew | s v s' _ [l [Hwf HP]] Hv Hpush
                 | s v s' _ [l [Hwf HP]] Hpop | s c _ [l [Hwf HP]]].
  - exists []. split; [apply (new_empty_well_formed _ Hnew) | constructor].
  - exists (v :: l). split; [apply (push_returns _ _ _ _ Hwf Hpush) | now constructor].
  - destruct (pop_returns _ _ _ _ Hwf Hpop) as (below & -> & Hwf' & _).
    exists below. split; [exact Hwf' | now inversion HP].
  - exists l. split; [exact Hwf | exact HP].
Qed.

(** ** Iteration *)

Lemma next_chain_cons (tp tm v : pyval) (below : list pyval) :
  Stack.__next__ (Stack.mk tp tm (Some (chain (v :: below)))) =
  (Stack.mk tp tm (Some (chain below)), Ok v).
Proof.
  unfold Stack.__next__. run_methods.
  now rewrite chain_cons_not_sentinel, unpack2_chain.
Qed.

Lemma next_chain_nil (tp tm : pyval) :
  Stack.__next__ (Stack.mk tp tm (Some (chain []))) =
  (Stack.mk tp tm (Some (chain [])), Raise StopIteration).
Proof. reflexivity. Qed.

Lemma drain_chain (tp tm : pyval) (values : list pyval) (fuel : nat) :
  (List.length values < fuel)%nat ->
  Stack.drain fuel (Stack.mk tp tm (Some (chain values))) =
  (Stack.mk tp tm (Some _SENTINEL), Ok values).
Proof.
  revert fuel. induction values as [|v below IH]; intros [|fuel] Hlt;
    try (simpl in Hlt; lia).
  - reflexivity.
  - cbn [Stack.drain]. rewrite next_chain_cons.
    unfold Stack.bind. rewrite IH by (simpl in Hlt; lia). reflexivity.
Qed.

Lemma vsize_chain (values : list pyval) : (List.length values <= Stack.vsize (chain values))%nat.
Proof.
  induction values as [|v below IH]; simpl; [lia|].
  simpl in IH. lia.
Qed.

Lemma to_list_chain (tm : pyval) (c : option pyval) (values : list pyval) :
  Stack.to_list (Stack.mk (chain values) tm c) =
  (Stack.mk (chain values) tm (Some _SENTINEL), Ok values).
Proof.
  unfold Stack.to_list, Stack.__iter__. run_methods.
  apply drain_chain. pose proof (vsize_chain values). lia.
Qed.

Lemma last_item_rev (v : pyval) (values : list pyval) :
  Stack.last_item (rev (v :: values)) = Ok v.
Proof. unfold Stack.last_item. now rewrite rev_involutive. Qed.

Lemma bottom_chain (tm : pyval) (c : option pyval) (values : list pyval) :
  Stack.bottom (Stack.mk (chain values) tm c) =
  match values with
  | [] => (Stack.mk (chain values) tm c, Ok VNone)
  | _ :: _ => (Stack.mk (chain values) tm (Some _SENTINEL), Ok (last values VNone))
  end.
Proof.
  destruct values as [|v below]; [reflexivity|].
  unfold Stack.bottom, Stack.bind at 1, Stack.get, Stack.is_empty.
  cbn [Stack.top]. unfold Stack._SENTINEL. rewrite chain_cons_not_sentinel.
  unfold Stack.bind. rewrite to_list_chain. unfold Stack.lift. f_equal.
  unfold Stack.last_item.
  destruct (rev (v :: below)) as [|x xs] eqn:E.
  - apply (f_equal (@List.length _)) in E. rewrite length_rev in E. discriminate.
  - f_equal. apply (f_equal (@rev _)) in E. rewrite rev_involutive in E.
    rewrite E. simpl. now rewrite last_last.
Qed.

(** Every unpacking of a cursor yields a smaller one. *)
Lemma unpack2_smaller (cur below v : pyval) :
  unpack2 cur = Ok (below, v) -> (Stack.vsize below < Stack.vsize cur)%nat.
Proof.
  unfold unpack2. destruct cur as [| |s|items|items]; simpl; try discriminate.
  - destruct s as [|a [|b [|]]]; simpl; try discriminate.
    intros H. injection H as <- _. simpl. lia.
  - destruct items as [|a [|b [|]]]; try discriminate.
    intros H. injection H as <- _. simpl. lia.
  - destruct items as [|a [|b [|]]]; try discriminate.
    intros H. injection H as <- _. simpl. lia.
Qed.

(** The loop over [__next__] never exhausts the bound [to_list] gives it,
    whatever the cursor holds. *)
Lemma drain_bound (fuel : nat) (s : Stack.t) (cur : pyval) :
  Stack.iter_curr s = Some cur -> (Stack.vsize cur < fuel)%nat ->
  snd (Stack.drain fuel s) <> Raise RecursionBound.
Proof.
  revert s cur. induction fuel as [|fuel IH]; intros [tp tm c] cur Hc Hlt; [lia|].
  simpl in Hc. subst c. cbn [Stack.drain]. unfold Stack.__next__. run_methods.
  destruct (value_eqb cur _SENTINEL); simpl; [discriminate|].
  destruct (unpack2 cur) as [[below v]|e] eqn:Hu.
  - apply unpack2_smaller in Hu.
    specialize (IH (Stack.mk tp tm (Some below)) below eq_refl ltac:(lia)).
    destruct (Stack.drain fuel (Stack.mk tp tm (Some below))) as [s' [l|e]];
      simpl in *; [discriminate | congruence].
  - unfold unpack2 in Hu.
    destruct (iterate cur) as [[|a [|b [|]]]|]; try discriminate;
      injection Hu as <-; simpl; discriminate.
Qed.

(** [list(self)] returns or raises a Python exception in every state: the
    bound of its loop is never what stops it. *)
Lemma to_list_within_bound (s : Stack.t) :
  snd (Stack.to_list s) <> Raise RecursionBound.
Proof.
  destruct s as [tp tm c]. unfold Stack.to_list, Stack.__iter__. run_methods.
  apply (drain_bound _ _ tp); [reflexivity | lia].
Qed.

(** ** The auxiliary chain tracks the minimum *)

Lemma total_order_refl (P : pyval -> Prop) (x : pyval) :
  total_order P -> P x -> py_le x x = Some true.
Proof. intros HP Hx. now destruct (to_total P HP x x Hx Hx). Qed.

Lemma aux_of_head_minimum (P : pyval -> Prop) (v : pyval) (below : list pyval) :
  total_order P -> Forall P (v :: below) ->
  exists m rest, aux_of (v :: below) = m :: rest /\ is_minimum m (v :: below).
Proof.
  intros HP. revert v. induction below as [|w below IH]; intros v Hall.
  - exists v, []. split; [reflexivity|]. split; [now left|].
    intros x [<-|[]]. apply (total_order_refl P); [exact HP | now inversion Hall].
  - inversion Hall as [|? ? Hv Hbelow]; subst.
    destruct (IH w Hbelow) as (m & rest & Ea & Hin & Hmin).
    assert (Hm : P m) by (eapply Forall_forall; eassumption).
    change (aux_of (v :: w :: below)) with
      (match aux_of (w :: below) with
       | [] => [v]
       | cur_min :: _ =>
           match py_le v cur_min with
           | Some true => v :: aux_of (w :: below)
           | _ => aux_of (w :: below)
           end
       end).
    rewrite Ea. destruct (py_le v m) as [[|]|] eqn:Hle.
    + exists v, (m :: rest). split; [reflexivity|]. split; [now left|].
      intros x [<-|Hx]; [now apply (total_order_refl P)|].
      apply (to_trans P HP v m x); auto.
      eapply Forall_forall; eassumption.
    + exists m, rest. split; [reflexivity|]. split; [now right|].
      intros x [<-|Hx]; [|now apply Hmin].
      destruct (to_total P HP v m Hv Hm) as [H|H]; congruence.
    + now destruct (to_defined P HP v m Hv Hm).
Qed.

Lemma is_empty_chain (s : Stack.t) (values : list pyval) :
  Stack.top s = chain values -> Stack.is_empty s = false -> values <> [].
Proof.
  intros Ht He ->. unfold Stack.is_empty in He. rewrite Ht in He. discriminate.
Qed.

Lemma int_total_order : total_order is_int.
Proof.
  split.
  - intros x y [a ->] [b ->]. discriminate.
  - intros x y [a ->] [b ->]. simpl.
    destruct (Z.leb_spec a b); [now left|].
    right. f_equal. apply Z.leb_le. lia.
  - intros x y z [a ->] [b ->] [c ->]. simpl. intros H1 H2.
    injection H1 as H1. injection H2 as H2. f_equal.
    apply Z.leb_le in H1, H2. apply Z.leb_le. lia.
  - intros x y [a ->] [b ->]. simpl. intros H1 H2.
    injection H1 as H1. injection H2 as H2.
    apply Z.leb_le in H1, H2. apply Z.eqb_eq. lia.
Qed.

(** C1. On every non-empty stack reached from [Stack()] by pushes and pops
    that returned, over values totally ordered by [<=], [min()] returns (and
    leaves the stack as it was) a least element of the values a linear scan
    of the main chain finds, and any least element of them is [==] to it. *)
Theorem min_returns_minimum (P : pyval -> Prop) (s : Stack.t) :
  total_order P -> reachable P s -> Stack.is_empty s = false ->
  exists m,
    Stack.min s = (s, Ok m) /\
    is_minimum m (present_values (Stack.top s)) /\
    forall m', is_minimum m' (present_values (Stack.top s)) -> value_eqb m m' = true.
Proof.
  intros HP Hr Hne.
  destruct (reachable_well_formed P s Hr) as (values & (Ht & Hm & _) & Hall).
  pose proof (is_empty_chain s values Ht Hne) as Hnil.
  destruct values as [|v below]; [congruence|].
  destruct (aux_of_head_minimum P v below HP Hall) as (m & rest & Ea & Hmin).
  exists m. rewrite Ht, present_values_chain. split; [|split].
  - unfold Stack.min, Stack.bind, Stack.get, Stack.lift. now rewrite Hm, Ea.
  - exact Hmin.
  - intros m' [Hin' Hmin']. destruct Hmin as [Hin Hmin].
    apply (to_antisym P HP); auto; eapply Forall_forall; eassumption.
Qed.

Lemma min_returns_minimum_witness :
  exists m,
    Stack.min (Stack.mk (chain [VInt 4; VInt 1; VInt 3]) (chain [VInt 1; VInt 3]) None) =
      (Stack.mk (chain [VInt 4; VInt 1; VInt 3]) (chain [VInt 1; VInt 3]) None, Ok m) /\
    is_minimum m (present_values (chain [VInt 4; VInt 1; VInt 3])) /\
    forall m', is_minimum m' (present_values (chain [VInt 4; VInt 1; VInt 3])) ->
      value_eqb m m' = true.
Proof.
  apply (min_returns_minimum is_int
           (Stack.mk (chain [VInt 4; VInt 1; VInt 3]) (chain [VInt 1; VInt 3]) None)).
  - exact int_total_order.
  - apply (reach_push _ (Stack.mk (chain [VInt 1; VInt 3]) (chain [VInt 1; VInt 3]) None) (VInt 4));
      [|exists 4; reflexivity | reflexivity].
    apply (reach_push _ (Stack.mk (chain [VInt 3]) (chain [VInt 3]) None) (VInt 1));
      [|exists 1; reflexivity | reflexivity].
    apply (reach_push _ (Stack.mk _SENTINEL _SENTINEL None) (VInt 3));
      [apply reach_new; reflexivity | exists 3; reflexivity | reflexivity].
  - reflexivity.
Defined.

(** ** Construction from a sequence, and popping it back *)

Lemma push_each_returns (P : pyval -> Prop) (items : list pyval) :
  total_order P -> Forall P items -> Forall non_sentinel items ->
  forall (s : Stack.t) (values : list pyval),
    well_formed s values -> Forall P values ->
    exists s', Stack.push_each items s = (s', Ok tt) /\
      well_formed s' (rev items ++ values) /\
      Stack.iter_curr s' = Stack.iter_curr s.
Proof.
  intros HP. induction items as [|v items IH]; intros Hall Hns s values Hwf Hvals.
  - exists s. split; [reflexivity | split; [exact Hwf | reflexivity]].
  - inversion Hall as [|? ? Hv Hall']; inversion Hns as [|? ? Hnv Hns']; subst.
    destruct (push_defined s v values Hwf Hnv) as [s1 Hpush].
    { intros m Hm. apply (to_defined P HP); [exact Hv|].
      exact (proj1 (Forall_forall P values) Hvals m Hm). }
    destruct (push_returns s s1 v values Hwf Hpush) as (Hwf1 & Hc1 & _).
    destruct (IH Hall' Hns' s1 (v :: values) Hwf1 (Forall_cons _ Hv Hvals))
      as (s' & Hrun & Hwf' & Hc').
    exists s'. cbn [Stack.push_each]. unfold Stack.bind at 1. rewrite Hpush.
    split; [exact Hrun|]. split; [|congruence].
    simpl. now rewrite <- app_assoc.
Qed.

Lemma new_from_sequence (P : pyval -> Prop) (S : list pyval) (seq : pyval) :
  total_order P -> Forall P S -> Forall non_sentinel S ->
  seq = VList S \/ seq = VTuple S ->
  exists s, Stack.new [seq] = Ok s /\ well_formed s (rev S) /\
    Stack.iter_curr s = None.
Proof.
  intros HP Hall Hns Hseq.
  destruct (push_each_returns P S HP Hall Hns
              (Stack.mk _SENTINEL _SENTINEL None) [])
    as (s & Hrun & Hwf & Hc); [now repeat split | constructor |].
  exists s. rewrite app_nil_r in Hwf. split; [|now split].
  unfold Stack.new, Stack.__init__. run_methods. unfold Stack.blank.
  assert (Hit : iterate seq = Some S) by (destruct Hseq; subst; reflexivity).
  rewrite Hit. now rewrite Hrun.
Qed.

Lemma pop_times_returns (values rest : list pyval) (s : Stack.t) :
  well_formed s (values ++ rest) ->
  exists s', pop_times (List.length values) s = (s', Ok values) /\
    well_formed s' rest /\ Stack.iter_curr s' = Stack.iter_curr s.
Proof.
  revert s. induction values as [|v values IH]; intros s Hwf.
  - exists s. split; [reflexivity | split; [exact Hwf | reflexivity]].
  - change ((v :: values) ++ rest) with (v :: (values ++ rest)) in Hwf.
    destruct s as [tp tm c]. destruct Hwf as (Ht & Hm & Hd).
    cbn [Stack.top Stack.top_min] in Ht, Hm. subst tp tm.
    destruct (IH (Stack.mk (chain (values ++ rest)) (chain (aux_of (values ++ rest))) c))
      as (s' & Hrun & Hwf' & Hc').
    { repeat split. apply Hd. }
    exists s'. cbn [pop_times List.length]. unfold Stack.bind at 1.
    rewrite pop_chain by exact Hd.
    unfold Stack.bind at 1. rewrite Hrun.
    split; [reflexivity | split; [exact Hwf' | exact Hc']].
Qed.

(** C2. A stack constructed from a finite sequence [S] (a list or a tuple) of
    totally ordered values, none of them the sentinel, exists; [len(S)] calls
    of [pop()] on it all return, their results in order are [reverse(S)], and
    the stack is then empty. *)
Theorem construct_then_pop_reverses (P : pyval -> Prop) (S : list pyval) (seq : pyval) :
  total_order P -> Forall P S -> Forall non_sentinel S ->
  seq = VList S \/ seq = VTuple S ->
  exists s s',
    Stack.new [seq] = Ok s /\
    pop_times (List.length S) s = (s', Ok (rev S)) /\
    Stack.is_empty s' = true.
Proof.
  intros HP Hall Hns Hseq.
  destruct (new_from_sequence P S seq HP Hall Hns Hseq) as (s & Hnew & Hwf & _).
  rewrite <- (app_nil_r (rev S)) in Hwf.
  destruct (pop_times_returns (rev S) [] s Hwf) as (s' & Hrun & (Ht & _) & _).
  rewrite length_rev in Hrun.
  exists s, s'. repeat split; trivial.
  unfold Stack.is_empty. now rewrite Ht.
Qed.

Lemma ints_are_int (zs : list Z) : Forall is_int (map VInt zs).
Proof. induction zs; constructor; [now eexists | assumption]. Qed.

Lemma ints_non_sentinel (zs : list Z) : Forall non_sentinel (map VInt zs).
Proof. induction zs; constructor; [reflexivity | assumption]. Qed.

Lemma construct_then_pop_reverses_witness :
  exists s s',
    Stack.new [VList (map VInt [3; 1; 4; 1; 5])] = Ok s /\
    pop_times 5 s = (s', Ok (map VInt [5; 1; 4; 1; 3])) /\
    Stack.is_empty s' = true.
Proof.
  apply (construct_then_pop_reverses is_int (map VInt [3; 1; 4; 1; 5])).
  - exact int_total_order.
  - apply ints_are_int.
  - apply ints_non_sentinel.
  - left. reflexivity.
Defined.

(** ** Failing operations *)

(** What [push] does with a value it cannot compare with the current
    minimum: the main frame is already in place when the comparison raises. *)
Lemma push_incomparable (s : Stack.t) (v cur_min : pyval) :
  non_sentinel v ->
  value_eqb (Stack.top_min s) _SENTINEL = false ->
  get_value (Stack.top_min s) = Ok cur_min ->
  py_le v cur_min = None ->
  Stack.push v s =
  (Stack.mk (StackFrame (Stack.top s) v) (Stack.top_min s) (Stack.iter_curr s),
   Raise IncomparableValueError).
Proof.
  intros Hns Haux Hval Hle. destruct s as [tp tm c]. simpl in *.
  unfold Stack.push, Stack._SENTINEL. rewrite Hns. run_methods.
  now rewrite Haux, Hval, Hle.
Qed.

(** C3. [push] is not atomic with respect to failure: on the stack
    [Stack(1)], [push("a")] raises [IncomparableValueError] and yet leaves
    ["a"] on top of the main chain, above [1]; [top_min] is as before. *)
Theorem push_incomparable_not_atomic :
  exists s s',
    Stack.new [VInt 1] = Ok s /\
    Stack.push (VStr "a") s = (s', Raise IncomparableValueError) /\
    present_values (Stack.top s) = [VInt 1] /\
    present_values (Stack.top s') = [VStr "a"; VInt 1] /\
    Stack.top s' <> Stack.top s /\
    Stack.top_min s' = Stack.top_min s.
Proof.
  exists (Stack.mk (chain [VInt 1]) (chain [VInt 1]) None).
  exists (Stack.mk (chain [VStr "a"; VInt 1]) (chain [VInt 1]) None).
  repeat split; try (vm_compute; reflexivity). discriminate.
Qed.

(** After such a failed push the auxiliary chain can run out before the main
    one: [push(None)] twice (the second raises), then two pops, leave an
    empty stack on which [min()] raises [AttributeError]. *)
Example min_after_failed_push :
  exists s1 s2 s3 s4,
    Stack.push VNone (Stack.mk _SENTINEL _SENTINEL None) = (s1, Ok tt) /\
    Stack.push VNone s1 = (s2, Raise IncomparableValueError) /\
    Stack.pop s2 = (s3, Ok VNone) /\
    Stack.pop s3 = (s4, Ok VNone) /\
    Stack.is_empty s4 = true /\
    Stack.min s4 = (s4, Raise AttributeError).
Proof.
  exists (Stack.mk (chain [VNone]) (chain [VNone]) None).
  exists (Stack.mk (chain [VNone; VNone]) (chain [VNone]) None).
  exists (Stack.mk (chain [VNone]) _SENTINEL None).
  exists (Stack.mk _SENTINEL (VTuple []) None).
  repeat split; vm_compute; reflexivity.
Qed.

(** C4. In every state of a stack, whatever brought it there: [pop()] on an
    empty stack raises [EmptyStackPopError], a push of a value [==] to the
    sentinel raises [ProtectedValueError], and both leave every attribute of
    the stack as it was. *)
Theorem pop_empty_and_push_sentinel_fail (s : Stack.t) :
  (Stack.is_empty s = true -> Stack.pop s = (s, Raise EmptyStackPopError)) /\
  (forall v, value_eqb v _SENTINEL = true ->
     Stack.push v s = (s, Raise (ProtectedValueError "Stack._SENTINEL"))).
Proof.
  split.
  - apply pop_empty.
  - intros v Hv. unfold Stack.push, Stack._SENTINEL. now rewrite Hv.
Qed.

Lemma pop_empty_and_push_sentinel_fail_witness :
  Stack.pop (Stack.mk _SENTINEL (chain [VInt 7]) (Some (VInt 0))) =
    (Stack.mk _SENTINEL (chain [VInt 7]) (Some (VInt 0)), Raise EmptyStackPopError) /\
  Stack.push (VTuple [VTuple []; VNone]) (Stack.mk (chain [VInt 2; VInt 1]) (chain [VInt 1]) None) =
    (Stack.mk (chain [VInt 2; VInt 1]) (chain [VInt 1]) None,
     Raise (ProtectedValueError "Stack._SENTINEL")).
Proof.
  split.
  - apply (proj1 (pop_empty_and_push_sentinel_fail _)). reflexivity.
  - apply (proj2 (pop_empty_and_push_sentinel_fail _)). reflexivity.
Defined.

(** C8. A call of the constructor with two or more positional arguments
    raises [TypeError] (the error the class uses for a wrong number of
    initializer arguments) and yields no stack. *)
Theorem init_rejects_two_or_more_arguments (values : list pyval) :
  (2 <= List.length values)%nat -> Stack.new values = Raise TypeError.
Proof.
  destruct values as [|a [|b rest]]; simpl; try lia. reflexivity.
Qed.

Lemma init_rejects_two_or_more_arguments_witness :
  Stack.new [VInt 1; VInt 2; VInt 3] = Raise TypeError.
Proof.
  apply init_rejects_two_or_more_arguments. simpl. lia.
Defined.




(** ** The documented scenario *)

(** C5, refuted as stated: after the five pushes and four pops the minimum is
    not 9, and the last value is not 9 either. *)
Lemma scenario_as_stated_fails :
  ~ (exists s0 s5 s6 s9 s10 removed,
       Stack.new [] = Ok s0 /\
       Stack.push_each (map VInt [10; 9; 11; 0; 10]) s0 = (s5, Ok tt) /\
       Stack.min s5 = (s5, Ok (VInt 0)) /\
       Stack.pop s5 = (s6, Ok (VInt 10)) /\
       Stack.min s6 = (s6, Ok (VInt 0)) /\
       pop_times 3 s6 = (s9, Ok removed) /\
       Stack.min s9 = (s9, Ok (VInt 9)) /\
       Stack.pop s9 = (s10, Ok (VInt 9)) /\
       Stack.is_empty s10 = true).
Proof.
  intros (s0 & s5 & s6 & s9 & s10 & removed & H0 & H5 & _ & H6 & _ & H9 & Hmin & _).
  vm_compute in H0. injection H0 as <-.
  vm_compute in H5. injection H5 as <-.
  vm_compute in H6. injection H6 as <-.
  vm_compute in H9. injection H9 as <- _.
  vm_compute in Hmin. discriminate.
Qed.

(** C5, amended.  Pushing 10, 9, 11, 0, 10 onto an empty stack gives
    [min() == 0]; one pop returns 10 and [min()] is still 0; two further pops
    return 0 and 11 and leave [min() == 9]; the next pop returns 9 and leaves
    [min() == 10]; a final pop returns 10 and leaves the stack empty. *)
Theorem scenario_push_pop_min :
  exists s0 s5 s6 s8 s9 s10,
    Stack.new [] = Ok s0 /\
    Stack.push_each (map VInt [10; 9; 11; 0; 10]) s0 = (s5, Ok tt) /\
    Stack.min s5 = (s5, Ok (VInt 0)) /\
    Stack.pop s5 = (s6, Ok (VInt 10)) /\
    Stack.min s6 = (s6, Ok (VInt 0)) /\
    pop_times 2 s6 = (s8, Ok [VInt 0; VInt 11]) /\
    Stack.min s8 = (s8, Ok (VInt 9)) /\
    Stack.pop s8 = (s9, Ok (VInt 9)) /\
    pop_times 3 s6 = (s9, Ok [VInt 0; VInt 11; VInt 9]) /\
    Stack.min s9 = (s9, Ok (VInt 10)) /\
    Stack.pop s9 = (s10, Ok (VInt 10)) /\
    Stack.is_empty s10 = true.
Proof.
  exists (Stack.mk _SENTINEL _SENTINEL None).
  exists (Stack.mk (chain (map VInt [10; 0; 11; 9; 10])) (chain (map VInt [0; 9; 10])) None).
  exists (Stack.mk (chain (map VInt [0; 11; 9; 10])) (chain (map VInt [0; 9; 10])) None).
  exists (Stack.mk (chain (map VInt [9; 10])) (chain (map VInt [9; 10])) None).
  exists (Stack.mk (chain (map VInt [10])) (chain (map VInt [10])) None).
  exists (Stack.mk _SENTINEL _SENTINEL None).
  repeat split; vm_compute; reflexivity.
Qed.

(** ** Iteration and [bottom] *)

Lemma to_list_well_formed (s : Stack.t) (values : list pyval) :
  Stack.top s = chain values ->
  Stack.to_list s =
  (Stack.mk (Stack.top s) (Stack.top_min s) (Some _SENTINEL), Ok values).
Proof.
  destruct s as [tp tm c]. cbn [Stack.top Stack.top_min]. intros ->.
  apply to_list_chain.
Qed.

(** A full iteration of any reachable stack yields the values a scan of the
    main chain finds and assigns nothing but the cursor; so does a second. *)
Lemma iteration_restarts (P : pyval -> Prop) (s : Stack.t) :
  reachable P s ->
  exists s1 s2,
    Stack.to_list s = (s1, Ok (present_values (Stack.top s))) /\
    Stack.to_list s1 = (s2, Ok (present_values (Stack.top s))) /\
    Stack.top s1 = Stack.top s /\ Stack.top_min s1 = Stack.top_min s /\
    Stack.top s2 = Stack.top s /\ Stack.top_min s2 = Stack.top_min s.
Proof.
  intros Hr.
  destruct (reachable_well_formed P s Hr) as (values & (Ht & _) & _).
  pose (s1 := Stack.mk (Stack.top s) (Stack.top_min s) (Some _SENTINEL)).
  exists s1, s1. rewrite Ht at 1 2. rewrite present_values_chain.
  split; [apply (to_list_well_formed s values Ht)|].
  split; [apply (to_list_well_formed s1 values Ht)|].
  now repeat split.
Qed.

(** C6. Iterating a stack freshly constructed from a sequence [S] of totally
    ordered values, none the sentinel, yields [reverse(S)]; a second full
    iteration yields the same sequence; [top] and [top_min] are as
    constructed after each.  The same holds of two iterations in a row of any
    reachable stack [r]. *)
Theorem iteration_reverses_and_restarts
    (P : pyval -> Prop) (S : list pyval) (seq : pyval) (r : Stack.t) :
  total_order P -> Forall P S -> Forall non_sentinel S ->
  seq = VList S \/ seq = VTuple S ->
  reachable P r ->
  (exists s s1 s2,
     Stack.new [seq] = Ok s /\
     Stack.to_list s = (s1, Ok (rev S)) /\
     Stack.to_list s1 = (s2, Ok (rev S)) /\
     Stack.top s1 = Stack.top s /\ Stack.top_min s1 = Stack.top_min s /\
     Stack.top s2 = Stack.top s /\ Stack.top_min s2 = Stack.top_min s) /\
  (exists r1 r2 values,
     Stack.to_list r = (r1, Ok values) /\
     Stack.to_list r1 = (r2, Ok values) /\
     Stack.top r1 = Stack.top r /\ Stack.top_min r1 = Stack.top_min r /\
     Stack.top r2 = Stack.top r /\ Stack.top_min r2 = Stack.top_min r).
Proof.
  intros HP Hall Hns Hseq Hr. split.
  - destruct (new_from_sequence P S seq HP Hall Hns Hseq) as (s & Hnew & (Ht & _) & _).
    pose (s1 := Stack.mk (Stack.top s) (Stack.top_min s) (Some _SENTINEL)).
    exists s, s1, s1. split; [exact Hnew|].
    split; [apply (to_list_well_formed s (rev S) Ht)|].
    split; [apply (to_list_well_formed s1 (rev S) Ht)|].
    now repeat split.
  - destruct (iteration_restarts P r Hr) as (r1 & r2 & H).
    exists r1, r2, (present_values (Stack.top r)). exact H.
Qed.

Lemma iteration_reverses_and_restarts_witness :
  (exists s s1 s2,
     Stack.new [VTuple (map VInt [3; 1; 4])] = Ok s /\
     Stack.to_list s = (s1, Ok (map VInt [4; 1; 3])) /\
     Stack.to_list s1 = (s2, Ok (map VInt [4; 1; 3])) /\
     Stack.top s1 = Stack.top s /\ Stack.top_min s1 = Stack.top_min s /\
     Stack.top s2 = Stack.top s /\ Stack.top_min s2 = Stack.top_min s) /\
  (exists r1 r2 values,
     Stack.to_list (Stack.mk _SENTINEL _SENTINEL None) = (r1, Ok values) /\
     Stack.to_list r1 = (r2, Ok values) /\
     Stack.top r1 = _SENTINEL /\ Stack.top_min r1 = _SENTINEL /\
     Stack.top r2 = _SENTINEL /\ Stack.top_min r2 = _SENTINEL).
Proof.
  apply (iteration_reverses_and_restarts is_int (map VInt [3; 1; 4])).
  - exact int_total_order.
  - apply ints_are_int.
  - apply ints_non_sentinel.
  - right. reflexivity.
  - apply reach_new. reflexivity.
Defined.

Lemma bottom_well_formed (s : Stack.t) (values : list pyval) :
  Stack.top s = chain values ->
  exists s',
    Stack.bottom s = (s', Ok (last values VNone)) /\
    Stack.top s' = Stack.top s /\ Stack.top_min s' = Stack.top_min s.
Proof.
  destruct s as [tp tm c]. cbn [Stack.top Stack.top_min]. intros ->.
  rewrite bottom_chain. destruct values; eexists; repeat split.
Qed.

Lemma last_cons_nonempty (v : pyval) (below : list pyval) :
  below <> [] -> last (v :: below) VNone = last below VNone.
Proof. destruct below; [congruence | reflexivity]. Qed.

Lemma keeps_bottom_last (s s2 : Stack.t) (values : list pyval) :
  keeps_bottom s s2 -> well_formed s values -> values <> [] ->
  exists values2, well_formed s2 values2 /\ values2 <> [] /\
    last values2 VNone = last values VNone.
Proof.
  intros Hk Hwf Hne.
  induction Hk as [s | s s1 s2 v _ IH Hpush | s s1 s2 v _ IH Hpop Hfull].
  - exists values. split; [exact Hwf | split; [exact Hne | reflexivity]].
  - destruct (IH Hwf) as (l1 & Hwf1 & Hne1 & Hlast).
    destruct (push_returns s1 s2 v l1 Hwf1 Hpush) as (Hwf2 & _).
    exists (v :: l1). split; [exact Hwf2|]. split; [discriminate|].
    now rewrite last_cons_nonempty.
  - destruct (IH Hwf) as (l1 & Hwf1 & Hne1 & Hlast).
    destruct (pop_returns s1 s2 v l1 Hwf1 Hpop) as (below & -> & Hwf2 & _).
    pose proof (is_empty_chain s2 below (proj1 Hwf2) Hfull) as Hne2.
    exists below. split; [exact Hwf2|]. split; [exact Hne2|].
    now rewrite <- Hlast, last_cons_nonempty.
Qed.

Lemma empty_well_formed (s : Stack.t) (values : list pyval) :
  well_formed s values -> Stack.is_empty s = true -> values = [].
Proof.
  intros (Ht & _) He. destruct values as [|v below]; [reflexivity|].
  unfold Stack.is_empty in He. rewrite Ht in He.
  unfold Stack._SENTINEL in He. rewrite chain_cons_not_sentinel in He. discriminate.
Qed.

(** C7. On every reachable stack [bottom()] returns and leaves [top] and
    [top_min] as they were; its result is the last element of a full
    top-to-bottom traversal, and [None] when the stack is empty; on a
    non-empty stack the result is the same after any run of pushes and pops
    that return and never empty the stack; and the value pushed onto an empty
    stack is the bottom for as long as such a run lasts (the first value
    pushed that is still present). *)
Theorem bottom_returns_oldest (P : pyval -> Prop) (s : Stack.t) :
  reachable P s ->
  exists s' s1 traversal,
    Stack.to_list s = (s1, Ok traversal) /\
    Stack.bottom s = (s', Ok (last traversal VNone)) /\
    Stack.top s' = Stack.top s /\ Stack.top_min s' = Stack.top_min s /\
    (Stack.is_empty s = true -> Stack.bottom s = (s, Ok VNone)) /\
    (Stack.is_empty s = false -> In (last traversal VNone) traversal) /\
    (forall s2, Stack.is_empty s = false -> keeps_bottom s s2 ->
       snd (Stack.bottom s2) = Ok (last traversal VNone)) /\
    (forall v s2 s3, Stack.is_empty s = true -> Stack.push v s = (s2, Ok tt) ->
       keeps_bottom s2 s3 -> snd (Stack.bottom s3) = Ok v).
Proof.
  intros Hr.
  destruct (reachable_well_formed P s Hr) as (values & Hwf & _).
  pose proof Hwf as (Ht & _).
  destruct (bottom_well_formed s values Ht) as (s' & Hb & Ht' & Hm').
  exists s'. do 2 eexists. split; [apply (to_list_well_formed s values Ht)|].
  split; [exact Hb|]. split; [exact Ht'|]. split; [exact Hm'|].
  split; [|split; [|split]].
  - intros He. unfold Stack.bottom, Stack.bind, Stack.get. now rewrite He.
  - intros He. pose proof (is_empty_chain s values Ht He) as Hne.
    destruct (exists_last Hne) as (front & x & ->).
    rewrite last_last. apply in_or_app. right. now left.
  - intros s2 He Hk. pose proof (is_empty_chain s values Ht He) as Hne.
    destruct (keeps_bottom_last s s2 values Hk Hwf Hne) as (l2 & (Ht2 & _) & _ & Hlast).
    destruct (bottom_well_formed s2 l2 Ht2) as (s2' & Hb2 & _).
    rewrite Hb2. simpl. now rewrite Hlast.
  - intros v s2 s3 He Hpush Hk.
    rewrite (empty_well_formed s values Hwf He) in Hwf.
    destruct (push_returns s s2 v [] Hwf Hpush) as (Hwf2 & _).
    destruct (keeps_bottom_last s2 s3 [v] Hk Hwf2 ltac:(discriminate))
      as (l3 & (Ht3 & _) & _ & Hlast).
    destruct (bottom_well_formed s3 l3 Ht3) as (s3' & Hb3 & _).
    rewrite Hb3. simpl. now rewrite Hlast.
Qed.

Lemma bottom_returns_oldest_witness :
  exists s' s1 traversal,
    Stack.to_list (Stack.mk (chain [VInt 2; VInt 7]) (chain [VInt 2; VInt 7]) None) =
      (s1, Ok traversal) /\
    Stack.bottom (Stack.mk (chain [VInt 2; VInt 7]) (chain [VInt 2; VInt 7]) None) =
      (s', Ok (last traversal VNone)) /\
    Stack.top s' = chain [VInt 2; VInt 7] /\ Stack.top_min s' = chain [VInt 2; VInt 7] /\
    (Stack.is_empty (Stack.mk (chain [VInt 2; VInt 7]) (chain [VInt 2; VInt 7]) None) = true ->
     Stack.bottom (Stack.mk (chain [VInt 2; VInt 7]) (chain [VInt 2; VInt 7]) None) =
       (Stack.mk (chain [VInt 2; VInt 7]) (chain [VInt 2; VInt 7]) None, Ok VNone)) /\
    (Stack.is_empty (Stack.mk (chain [VInt 2; VInt 7]) (chain [VInt 2; VInt 7]) None) = false ->
     In (last traversal VNone) traversal) /\
    (forall s2,
       Stack.is_empty (Stack.mk (chain [VInt 2; VInt 7]) (chain [VInt 2; VInt 7]) None) = false ->
       keeps_bottom (Stack.mk (chain [VInt 2; VInt 7]) (chain [VInt 2; VInt 7]) None) s2 ->
       snd (Stack.bottom s2) = Ok (last traversal VNone)) /\
    (forall v s2 s3,
       Stack.is_empty (Stack.mk (chain [VInt 2; VInt 7]) (chain [VInt 2; VInt 7]) None) = true ->
       Stack.push v (Stack.mk (chain [VInt 2; VInt 7]) (chain [VInt 2; VInt 7]) None) = (s2, Ok tt) ->
       keeps_bottom s2 s3 -> snd (Stack.bottom s3) = Ok v).
Proof.
  apply (bottom_returns_oldest (fun _ => True)
           (Stack.mk (chain [VInt 2; VInt 7]) (chain [VInt 2; VInt 7]) None)).
  apply (reach_push _ (Stack.mk (chain [VInt 7]) (chain [VInt 7]) None) (VInt 2));
    [|exact I | reflexivity].
  apply (reach_push _ (Stack.mk _SENTINEL _SENTINEL None) (VInt 7));
    [apply reach_new; reflexivity | exact I | reflexivity].
Defined.

(** C10. The cursor of an iteration is the attribute [iter_curr] of the stack
    itself: on [Stack([1, 2, 3])] a traversal advanced twice yields 3 and
    then 2, but when a second iteration is started in between it yields 3 and
    then 3 again, and when [bottom()] or [list(stack)] runs in between its
    second step raises [StopIteration]. *)
Theorem interleaved_iterations_share_cursor :
  exists s,
    Stack.new [VList (map VInt [1; 2; 3])] = Ok s /\
    snd (next_twice_with (Stack.ret tt) s) = Ok (VInt 3, VInt 2) /\
    snd (next_twice_with Stack.__iter__ s) = Ok (VInt 3, VInt 3) /\
    snd (next_twice_with Stack.bottom s) = Raise StopIteration /\
    snd (next_twice_with Stack.to_list s) = Raise StopIteration /\
    Stack.iter_curr (fst (Stack.__iter__ s)) = Some (Stack.top s).
Proof.
  exists (Stack.mk (chain (map VInt [3; 2; 1])) (chain (map VInt [1])) None).
  repeat split; vm_compute; reflexivity.
Qed.

(** ** Further properties of the methods *)

Lemma stack_eta (s : Stack.t) :
  s = Stack.mk (Stack.top s) (Stack.top_min s) (Stack.iter_curr s).
Proof. now destruct s. Qed.

Lemma well_formed_eta (s : Stack.t) (values : list pyval) :
  well_formed s values ->
  s = Stack.mk (chain values) (chain (aux_of values)) (Stack.iter_curr s).
Proof. intros (Ht & Hm & _). rewrite <- Ht, <- Hm. apply stack_eta. Qed.

Lemma reachable_values (P : pyval -> Prop) (s : Stack.t) :
  reachable P s ->
  exists values, well_formed s values /\ Forall P values /\ Forall non_sentinel values.
Proof.
  induction 1 as [s Hnew | s v s' _ (l & Hwf & HP & Hns) Hv Hpush
                 | s v s' _ (l & Hwf & HP & Hns) Hpop | s c _ (l & Hwf & HP & Hns)].
  - exists []. split; [apply (new_empty_well_formed _ Hnew) | split; constructor].
  - destruct (push_returns _ _ _ _ Hwf Hpush) as (Hwf' & _ & Hnv).
    exists (v :: l). split; [exact Hwf' | split; now constructor].
  - destruct (pop_returns _ _ _ _ Hwf Hpop) as (below & -> & Hwf' & _).
    exists below. split; [exact Hwf' | split; [now inversion HP | now inversion Hns]].
  - exists l. split; [exact Hwf | split; assumption].
Qed.

(** Push then pop is the identity: on a stack reached by pushes and pops
    that returned, over values totally ordered by [<=], a [pop()] after a
    [push(v)] of such a value gives [v] back and restores every attribute. *)
Theorem push_pop_round_trip (P : pyval -> Prop) (s s1 : Stack.t) (v : pyval) :
  total_order P -> reachable P s -> P v ->
  Stack.push v s = (s1, Ok tt) -> Stack.pop s1 = (s, Ok v).
Proof.
  intros _ Hr _ Hpush.
  destruct (reachable_well_formed P s Hr) as (values & Hwf & _).
  destruct (push_returns s s1 v values Hwf Hpush) as (Hwf1 & Hc & _).
  rewrite (well_formed_eta s1 _ Hwf1), pop_chain by apply Hwf1.
  now rewrite Hc, <- (well_formed_eta s values Hwf).
Qed.

Lemma push_pop_round_trip_witness :
  Stack.pop (Stack.mk (chain [VInt 1; VInt 1; VInt 4]) (chain [VInt 1; VInt 1; VInt 4]) None) =
  (Stack.mk (chain [VInt 1; VInt 4]) (chain [VInt 1; VInt 4]) None, Ok (VInt 1)).
Proof.
  apply (push_pop_round_trip is_int);
    [exact int_total_order | | exists 1; reflexivity | reflexivity].
  apply (reach_push _ (Stack.mk (chain [VInt 4]) (chain [VInt 4]) None) (VInt 1));
    [|exists 1; reflexivity | reflexivity].
  apply (reach_push _ (Stack.mk _SENTINEL _SENTINEL None) (VInt 4));
    [apply reach_new; reflexivity | exists 4; reflexivity | reflexivity].
Defined.

(** On a reachable stack that is not empty [pop()] never raises: it returns
    the value a traversal would yield first, the traversal of the stack
    afterwards is the rest, the cursor is not assigned, and the stack is
    reachable again. *)
Theorem pop_returns_first_of_traversal (P : pyval -> Prop) (s : Stack.t) :
  reachable P s -> Stack.is_empty s = false ->
  exists v s',
    Stack.pop s = (s', Ok v) /\
    present_values (Stack.top s) = v :: present_values (Stack.top s') /\
    Stack.iter_curr s' = Stack.iter_curr s /\
    reachable P s'.
Proof.
  intros Hr He.
  destruct (reachable_well_formed P s Hr) as (values & Hwf & _).
  pose proof (is_empty_chain s values (proj1 Hwf) He) as Hne.
  destruct values as [|v below]; [congruence|].
  exists v, (Stack.mk (chain below) (chain (aux_of below)) (Stack.iter_curr s)).
  assert (Hpop : Stack.pop s =
    (Stack.mk (chain below) (chain (aux_of below)) (Stack.iter_curr s), Ok v)).
  { rewrite (well_formed_eta s _ Hwf) at 1. apply pop_chain, Hwf. }
  split; [exact Hpop|]. split; [|split; [reflexivity|]].
  - rewrite (proj1 Hwf). cbn [Stack.top]. now rewrite !present_values_chain.
  - exact (reach_pop P s v _ Hr Hpop).
Qed.

Lemma pop_returns_first_of_traversal_witness :
  exists v s',
    Stack.pop (Stack.mk (chain [VInt 1; VInt 4]) (chain [VInt 1; VInt 4]) None) = (s', Ok v) /\
    present_values (chain [VInt 1; VInt 4]) = v :: present_values (Stack.top s') /\
    Stack.iter_curr s' = None /\
    reachable (fun _ => True) s'.
Proof.
  apply (pop_returns_first_of_traversal (fun _ => True)
           (Stack.mk (chain [VInt 1; VInt 4]) (chain [VInt 1; VInt 4]) None));
    [|reflexivity].
  apply (reach_push _ (Stack.mk (chain [VInt 4]) (chain [VInt 4]) None) (VInt 1));
    [|exact I | reflexivity].
  apply (reach_push _ (Stack.mk _SENTINEL _SENTINEL None) (VInt 4));
    [apply reach_new; reflexivity | exact I | reflexivity].
Defined.

Lemma min_well_formed (s : Stack.t) (values : list pyval) :
  well_formed s values ->
  Stack.min s = (s, match aux_of values with
                    | m :: _ => Ok m
                    | [] => Ok VNone
                    end).
Proof.
  intros (_ & Hm & _). unfold Stack.min, Stack.bind, Stack.get, Stack.lift.
  rewrite Hm. now destruct (aux_of values).
Qed.

Lemma aux_of_nil_iff (values : list pyval) : aux_of values = [] <-> values = [].
Proof.
  split; [|now intros ->].
  destruct values as [|v below]; [reflexivity|]. simpl.
  destruct (aux_of below) as [|m rest]; [discriminate|].
  destruct (py_le v m) as [[|]|]; discriminate.
Qed.

Lemma push_chain (v : pyval) (main aux : list pyval) (c : option pyval) :
  value_eqb v _SENTINEL = false ->
  Stack.push v (Stack.mk (chain main) (chain aux) c) =
  match aux with
  | [] => (Stack.mk (chain (v :: main)) (chain [v]) c, Ok tt)
  | m :: _ =>
      match py_le v m with
      | Some true => (Stack.mk (chain (v :: main)) (chain (v :: aux)) c, Ok tt)
      | Some false => (Stack.mk (chain (v :: main)) (chain aux) c, Ok tt)
      | None => (Stack.mk (chain (v :: main)) (chain aux) c, Raise IncomparableValueError)
      end
  end.
Proof.
  intros Hs. unfold Stack.push, Stack._SENTINEL. rewrite Hs. run_methods.
  destruct aux as [|m rest]; [reflexivity|].
  rewrite chain_cons_not_sentinel, get_value_chain.
  now destruct (py_le v m) as [[|]|].
Qed.

Lemma push_sentinel (s : Stack.t) (v : pyval) :
  value_eqb v _SENTINEL = true ->
  Stack.push v s = (s, Raise (ProtectedValueError "Stack._SENTINEL")).
Proof. intros Hv. unfold Stack.push, Stack._SENTINEL. now rewrite Hv. Qed.

(** The three outcomes of [push(v)], for any [v], on a stack reached by
    pushes and pops that returned over values totally ordered by [<=], and
    nothing else (no [AttributeError], no plain [TypeError]):
    [ProtectedValueError] with the stack untouched when [v] is [==] to the
    sentinel; a return, after which a traversal yields [v] and then what it
    yielded before; or [IncomparableValueError], only when the stack is not
    empty and [v] cannot be compared with the value [min()] returns. *)
Theorem push_outcomes (P : pyval -> Prop) (s : Stack.t) (v : pyval) :
  total_order P -> reachable P s ->
  (value_eqb v _SENTINEL = true /\
   Stack.push v s = (s, Raise (ProtectedValueError "Stack._SENTINEL"))) \/
  (value_eqb v _SENTINEL = false /\
   exists s', Stack.push v s = (s', Ok tt) /\
     present_values (Stack.top s') = v :: present_values (Stack.top s) /\
     (Stack.is_empty s = true \/
      exists m b, Stack.min s = (s, Ok m) /\ py_le v m = Some b)) \/
  (value_eqb v _SENTINEL = false /\
   exists s' m, Stack.push v s = (s', Raise IncomparableValueError) /\
     Stack.is_empty s = false /\ Stack.min s = (s, Ok m) /\ py_le v m = None).
Proof.
  intros _ Hr.
  destruct (value_eqb v _SENTINEL) eqn:Hs.
  { left. split; [reflexivity | now apply push_sentinel]. }
  right.
  destruct (reachable_well_formed P s Hr) as (values & Hwf & _).
  pose proof (min_well_formed s values Hwf) as Hmin.
  pose proof (push_chain v values (aux_of values) (Stack.iter_curr s) Hs) as Hpush.
  rewrite <- (well_formed_eta s values Hwf) in Hpush.
  assert (Htrav : present_values (Stack.top s) = values)
    by (rewrite (proj1 Hwf); apply present_values_chain).
  destruct (aux_of values) as [|m rest] eqn:Ha.
  - left. split; [reflexivity|]. eexists. split; [exact Hpush|]. split.
    + cbn [Stack.top]. now rewrite present_values_chain, Htrav.
    + left. apply (proj1 (aux_of_nil_iff values)) in Ha. rewrite Ha in Hwf.
      unfold Stack.is_empty. now rewrite (proj1 Hwf).
  - destruct (py_le v m) as [[|]|] eqn:Hle.
    + left. split; [reflexivity|]. eexists. split; [exact Hpush|]. split.
      * cbn [Stack.top]. now rewrite present_values_chain, Htrav.
      * right. now exists m, true.
    + left. split; [reflexivity|]. eexists. split; [exact Hpush|]. split.
      * cbn [Stack.top]. now rewrite present_values_chain, Htrav.
      * right. now exists m, false.
    + right. split; [reflexivity|]. do 2 eexists. split; [exact Hpush|].
      split; [|split; [exact Hmin | exact Hle]].
      unfold Stack.is_empty. rewrite (proj1 Hwf).
      destruct values; [discriminate | apply chain_cons_not_sentinel].
Qed.

Lemma push_outcomes_witness :
  (value_eqb (VStr "a") _SENTINEL = true /\
   Stack.push (VStr "a") (Stack.mk (chain [VInt 4]) (chain [VInt 4]) None) =
     (Stack.mk (chain [VInt 4]) (chain [VInt 4]) None,
      Raise (ProtectedValueError "Stack._SENTINEL"))) \/
  (value_eqb (VStr "a") _SENTINEL = false /\
   exists s', Stack.push (VStr "a") (Stack.mk (chain [VInt 4]) (chain [VInt 4]) None) = (s', Ok tt) /\
     present_values (Stack.top s') = VStr "a" :: present_values (chain [VInt 4]) /\
     (Stack.is_empty (Stack.mk (chain [VInt 4]) (chain [VInt 4]) None) = true \/
      exists m b, Stack.min (Stack.mk (chain [VInt 4]) (chain [VInt 4]) None) =
                    (Stack.mk (chain [VInt 4]) (chain [VInt 4]) None, Ok m) /\
                  py_le (VStr "a") m = Some b)) \/
  (value_eqb (VStr "a") _SENTINEL = false /\
   exists s' m, Stack.push (VStr "a") (Stack.mk (chain [VInt 4]) (chain [VInt 4]) None) =
                  (s', Raise IncomparableValueError) /\
     Stack.is_empty (Stack.mk (chain [VInt 4]) (chain [VInt 4]) None) = false /\
     Stack.min (Stack.mk (chain [VInt 4]) (chain [VInt 4]) None) =
       (Stack.mk (chain [VInt 4]) (chain [VInt 4]) None, Ok m) /\
     py_le (VStr "a") m = None).
Proof.
  apply (push_outcomes is_int
           (Stack.mk (chain [VInt 4]) (chain [VInt 4]) None) (VStr "a"));
    [exact int_total_order|].
  apply (reach_push _ (Stack.mk _SENTINEL _SENTINEL None) (VInt 4));
    [apply reach_new; reflexivity | exists 4; reflexivity | reflexivity].
Defined.

(** How [push] moves the minimum: after a [push(v)] that returned, on a
    stack reached by pushes and pops that returned over values totally
    ordered by [<=] and not empty, with [min()] equal to [m], [min()] is [v]
    when [v <= m] (ties included) and still [m] otherwise; on an empty
    stack it is [v]. *)
Theorem min_after_push (P : pyval -> Prop) (s s' : Stack.t) (v : pyval) :
  total_order P -> reachable P s -> Stack.push v s = (s', Ok tt) ->
  (Stack.is_empty s = true -> Stack.min s' = (s', Ok v)) /\
  (forall m, Stack.is_empty s = false -> Stack.min s = (s, Ok m) ->
     Stack.min s' = (s', Ok (match py_le v m with Some true => v | _ => m end))).
Proof.
  intros _ Hr Hpush.
  destruct (reachable_well_formed P s Hr) as (values & Hwf & _).
  destruct (push_returns s s' v values Hwf Hpush) as (Hwf' & _).
  rewrite (min_well_formed s' _ Hwf'). split.
  - intros He. rewrite (empty_well_formed s values Hwf He). reflexivity.
  - intros m He Hmin. rewrite (min_well_formed s values Hwf) in Hmin.
    pose proof (is_empty_chain s values (proj1 Hwf) He) as Hne.
    simpl. destruct (aux_of values) as [|m0 rest] eqn:Ha.
    + apply (proj1 (aux_of_nil_iff values)) in Ha. congruence.
    + injection Hmin as ->. now destruct (py_le v m) as [[|]|].
Qed.

Lemma min_after_push_witness :
  (Stack.is_empty (Stack.mk (chain [VInt 4]) (chain [VInt 4]) None) = true ->
   Stack.min (Stack.mk (chain [VInt 4; VInt 4]) (chain [VInt 4; VInt 4]) None) =
     (Stack.mk (chain [VInt 4; VInt 4]) (chain [VInt 4; VInt 4]) None, Ok (VInt 4))) /\
  (forall m, Stack.is_empty (Stack.mk (chain [VInt 4]) (chain [VInt 4]) None) = false ->
     Stack.min (Stack.mk (chain [VInt 4]) (chain [VInt 4]) None) =
       (Stack.mk (chain [VInt 4]) (chain [VInt 4]) None, Ok m) ->
     Stack.min (Stack.mk (chain [VInt 4; VInt 4]) (chain [VInt 4; VInt 4]) None) =
       (Stack.mk (chain [VInt 4; VInt 4]) (chain [VInt 4; VInt 4]) None,
        Ok (match py_le (VInt 4) m with Some true => VInt 4 | _ => m end))).
Proof.
  apply (min_after_push is_int
           (Stack.mk (chain [VInt 4]) (chain [VInt 4]) None) _ (VInt 4));
    [exact int_total_order | | reflexivity].
  apply (reach_push _ (Stack.mk _SENTINEL _SENTINEL None) (VInt 4));
    [apply reach_new; reflexivity | exists 4; reflexivity | reflexivity].
Defined.

(** ** Emptiness and the auxiliary chain *)

(** On a stack reached by pushes and pops that returned, over values
    totally ordered by [<=], the three ways to see that it is empty agree:
    [is_empty], a traversal that yields nothing, and an auxiliary chain that
    is the sentinel; the auxiliary chain runs out exactly when the main one
    does. *)
Theorem empty_views_agree (P : pyval -> Prop) (s : Stack.t) :
  total_order P -> reachable P s ->
  (Stack.is_empty s = true <-> snd (Stack.to_list s) = Ok []) /\
  (Stack.is_empty s = true <-> value_eqb (Stack.top_min s) _SENTINEL = true).
Proof.
  intros _ Hr.
  destruct (reachable_well_formed P s Hr) as (values & Hwf & _).
  pose proof Hwf as (Ht & Hm & _).
  rewrite (to_list_well_formed s values Ht). unfold Stack.is_empty.
  rewrite Ht, Hm. unfold Stack._SENTINEL. cbn [snd].
  destruct values as [|v below].
  - repeat split; reflexivity.
  - rewrite chain_cons_not_sentinel.
    destruct (aux_of (v :: below)) as [|m rest] eqn:Ha.
    + apply (proj1 (aux_of_nil_iff _)) in Ha. discriminate.
    + rewrite chain_cons_not_sentinel. repeat split; discriminate.
Qed.

Lemma empty_views_agree_witness :
  (Stack.is_empty (Stack.mk (chain [VInt 4]) (chain [VInt 4]) None) = true <->
   snd (Stack.to_list (Stack.mk (chain [VInt 4]) (chain [VInt 4]) None)) = Ok []) /\
  (Stack.is_empty (Stack.mk (chain [VInt 4]) (chain [VInt 4]) None) = true <->
   value_eqb (chain [VInt 4]) _SENTINEL = true).
Proof.
  apply (empty_views_agree is_int
           (Stack.mk (chain [VInt 4]) (chain [VInt 4]) None));
    [exact int_total_order|].
  apply (reach_push _ (Stack.mk _SENTINEL _SENTINEL None) (VInt 4));
    [apply reach_new; reflexivity | exists 4; reflexivity | reflexivity].
Defined.

Lemma aux_of_subsequence (values : list pyval) : subsequence (aux_of values) values.
Proof.
  induction values as [|v below IH]; simpl; [constructor|].
  destruct (aux_of below) as [|m rest].
  - apply subseq_keep, IH.
  - destruct (py_le v m) as [[|]|];
      try (apply subseq_skip, IH). apply subseq_keep, IH.
Qed.

Lemma aux_of_non_increasing (values : list pyval) : non_increasing (aux_of values).
Proof.
  induction values as [|v below IH]; simpl; [exact I|].
  destruct (aux_of below) as [|m rest] eqn:Ha; [now split|].
  destruct (py_le v m) as [[|]|] eqn:Hle; try exact IH.
  split; [exact Hle | exact IH].
Qed.

Lemma aux_of_last (values : list pyval) :
  last (aux_of values) VNone = last values VNone.
Proof.
  induction values as [|v below IH]; [reflexivity|].
  destruct (aux_of_cons_cases v below) as [E | (m & rest & b & Ea & _ & _ & E)];
    rewrite E.
  - destruct below as [|w below']; [reflexivity|].
    destruct (aux_of (w :: below')) as [|m rest] eqn:Ha.
    + apply (proj1 (aux_of_nil_iff _)) in Ha. discriminate.
    + change (last (v :: m :: rest) VNone) with (last (m :: rest) VNone).
      now rewrite IH.
  - rewrite IH. destruct below; [discriminate | reflexivity].
Qed.

(** The auxiliary chain of a stack reached by pushes and pops that
    returned, over values totally ordered by [<=]: its values are a
    subsequence of those of the main chain, each is [<=] the one beneath it,
    and its bottom value is the bottom value of the main chain. *)
Theorem aux_chain_invariant (P : pyval -> Prop) (s : Stack.t) :
  total_order P -> reachable P s ->
  subsequence (present_values (Stack.top_min s)) (present_values (Stack.top s)) /\
  non_increasing (present_values (Stack.top_min s)) /\
  last (present_values (Stack.top_min s)) VNone =
    last (present_values (Stack.top s)) VNone.
Proof.
  intros _ Hr.
  destruct (reachable_well_formed P s Hr) as (values & (Ht & Hm & _) & _).
  rewrite Ht, Hm, !present_values_chain.
  split; [apply aux_of_subsequence|].
  split; [apply aux_of_non_increasing | apply aux_of_last].
Qed.

Lemma aux_chain_invariant_witness :
  subsequence (present_values (chain [VInt 1; VInt 4]))
              (present_values (chain [VInt 9; VInt 1; VInt 4])) /\
  non_increasing (present_values (chain [VInt 1; VInt 4])) /\
  last (present_values (chain [VInt 1; VInt 4])) VNone =
    last (present_values (chain [VInt 9; VInt 1; VInt 4])) VNone.
Proof.
  apply (aux_chain_invariant is_int
           (Stack.mk (chain [VInt 9; VInt 1; VInt 4]) (chain [VInt 1; VInt 4]) None));
    [exact int_total_order|].
  apply (reach_push _ (Stack.mk (chain [VInt 1; VInt 4]) (chain [VInt 1; VInt 4]) None) (VInt 9));
    [|exists 9; reflexivity | reflexivity].
  apply (reach_push _ (Stack.mk (chain [VInt 4]) (chain [VInt 4]) None) (VInt 1));
    [|exists 1; reflexivity | reflexivity].
  apply (reach_push _ (Stack.mk _SENTINEL _SENTINEL None) (VInt 4));
    [apply reach_new; reflexivity | exists 4; reflexivity | reflexivity].
Defined.

(** ** What the methods leave alone, in every state *)

Lemma push_keeps_cursor (s : Stack.t) (v : pyval) :
  Stack.iter_curr (fst (Stack.push v s)) = Stack.iter_curr s.
Proof.
  destruct s as [tp tm c]. unfold Stack.push.
  destruct (value_eqb v Stack._SENTINEL); [reflexivity|]. run_methods.
  destruct (value_eqb tm _SENTINEL); [reflexivity|].
  destruct (get_value tm) as [m|e].
  - destruct (py_le v m) as [[|]|]; reflexivity.
  - simpl. destruct (is_TypeError e); reflexivity.
Qed.

Lemma pop_keeps_cursor (s : Stack.t) :
  Stack.iter_curr (fst (Stack.pop s)) = Stack.iter_curr s.
Proof.
  destruct s as [tp tm c]. unfold Stack.pop. run_methods.
  destruct (value_eqb tp _SENTINEL); [reflexivity|].
  destruct (unpack2 tp) as [[below old_top]|e]; [|reflexivity].
  destruct (get_value tm) as [m|e]; [|reflexivity].
  destruct (value_eqb m old_top); [|reflexivity].
  destruct (unpack2 tm) as [[aux_below x]|e]; reflexivity.
Qed.

Lemma next_cursor_only (s s' : Stack.t) :
  Stack.iter_curr s = Stack.iter_curr s' ->
  snd (Stack.__next__ s) = snd (Stack.__next__ s') /\
  Stack.iter_curr (fst (Stack.__next__ s)) = Stack.iter_curr (fst (Stack.__next__ s')).
Proof.
  destruct s as [tp tm c], s' as [tp' tm' c']. cbn [Stack.iter_curr]. intros <-.
  unfold Stack.__next__. run_methods.
  destruct c as [cur|]; [|now split].
  destruct (value_eqb cur _SENTINEL); [now split|]. cbn [negb].
  destruct (unpack2 cur) as [[below v]|e]; now split.
Qed.

Lemma drain_cursor_only (fuel : nat) (s s' : Stack.t) :
  Stack.iter_curr s = Stack.iter_curr s' ->
  snd (Stack.drain fuel s) = snd (Stack.drain fuel s').
Proof.
  revert s s'. induction fuel as [|fuel IH]; intros s s' Hc; [reflexivity|].
  cbn [Stack.drain]. destruct (next_cursor_only s s' Hc) as [Hr Hc'].
  destruct (Stack.__next__ s) as [s1 r1], (Stack.__next__ s') as [s1' r1'].
  cbn [fst snd] in Hr, Hc'. subst r1'.
  destruct r1 as [v|e].
  - unfold Stack.bind. specialize (IH s1 s1' Hc').
    destruct (Stack.drain fuel s1) as [s2 r2], (Stack.drain fuel s1') as [s2' r2'].
    cbn [snd] in IH. subst r2'. now destruct r2.
  - now destruct e.
Qed.

(** A traversal in progress does not see pushes and pops: in every state,
    and whether they return or raise, [push] and [pop] leave the cursor as
    it was, so the next value and all the remaining values the traversal
    yields are the same as without them. *)
Theorem traversal_unaffected_by_push_pop (s : Stack.t) (v : pyval) (fuel : nat) :
  Stack.iter_curr (fst (Stack.push v s)) = Stack.iter_curr s /\
  Stack.iter_curr (fst (Stack.pop s)) = Stack.iter_curr s /\
  snd (Stack.__next__ (fst (Stack.push v s))) = snd (Stack.__next__ s) /\
  snd (Stack.__next__ (fst (Stack.pop s))) = snd (Stack.__next__ s) /\
  snd (Stack.drain fuel (fst (Stack.push v s))) = snd (Stack.drain fuel s) /\
  snd (Stack.drain fuel (fst (Stack.pop s))) = snd (Stack.drain fuel s).
Proof.
  pose proof (push_keeps_cursor s v) as Hpush.
  pose proof (pop_keeps_cursor s) as Hpop.
  repeat split; trivial;
    try (apply next_cursor_only; assumption);
    apply drain_cursor_only; assumption.
Qed.

Lemma next_keeps_chains (s : Stack.t) :
  Stack.top (fst (Stack.__next__ s)) = Stack.top s /\
  Stack.top_min (fst (Stack.__next__ s)) = Stack.top_min s.
Proof.
  destruct s as [tp tm c]. unfold Stack.__next__. run_methods.
  destruct c as [cur|]; [|now split].
  destruct (value_eqb cur _SENTINEL); [now split|]. cbn [negb].
  destruct (unpack2 cur) as [[below v]|e]; now split.
Qed.

Lemma drain_keeps_chains (fuel : nat) (s : Stack.t) :
  Stack.top (fst (Stack.drain fuel s)) = Stack.top s /\
  Stack.top_min (fst (Stack.drain fuel s)) = Stack.top_min s.
Proof.
  revert s. induction fuel as [|fuel IH]; intros s; [now split|].
  cbn [Stack.drain]. destruct (next_keeps_chains s) as [Ht Hm].
  destruct (Stack.__next__ s) as [s1 [v|e]]; cbn [fst] in Ht, Hm.
  - unfold Stack.bind. destruct (IH s1) as [Ht1 Hm1].
    destruct (Stack.drain fuel s1) as [s2 [rest|e]]; unfold Stack.ret;
      cbn [fst] in *; split; congruence.
  - destruct e; now split.
Qed.

Lemma to_list_keeps_chains (s : Stack.t) :
  Stack.top (fst (Stack.to_list s)) = Stack.top s /\
  Stack.top_min (fst (Stack.to_list s)) = Stack.top_min s.
Proof.
  destruct s as [tp tm c]. unfold Stack.to_list, Stack.__iter__. run_methods.
  apply (drain_keeps_chains _ (Stack.mk tp tm (Some tp))).
Qed.

(** Iterating never changes the stack, in any state and whatever the
    outcome: [__next__], [list(self)], [bottom()] and [str(self)] leave
    [top] and [top_min] as they were; and [list(self)] always ends, with a
    list or a Python exception. *)
Theorem iteration_leaves_chains (str : pyval -> string) (s : Stack.t) :
  (Stack.top (fst (Stack.__next__ s)) = Stack.top s /\
   Stack.top_min (fst (Stack.__next__ s)) = Stack.top_min s) /\
  (Stack.top (fst (Stack.to_list s)) = Stack.top s /\
   Stack.top_min (fst (Stack.to_list s)) = Stack.top_min s) /\
  (Stack.top (fst (Stack.bottom s)) = Stack.top s /\
   Stack.top_min (fst (Stack.bottom s)) = Stack.top_min s) /\
  (Stack.top (fst (__str__ str s)) = Stack.top s /\
   Stack.top_min (fst (__str__ str s)) = Stack.top_min s) /\
  snd (Stack.to_list s) <> Raise RecursionBound.
Proof.
  pose proof (to_list_keeps_chains s) as Hl.
  split; [apply next_keeps_chains|]. split; [exact Hl|].
  split; [|split; [|apply to_list_within_bound]].
  - unfold Stack.bottom, Stack.bind, Stack.get.
    destruct (Stack.is_empty s); [now split|].
    destruct (Stack.to_list s) as [s1 [values|e]]; cbn [fst] in *; [|exact Hl].
    unfold Stack.lift. exact Hl.
  - unfold __str__, Stack.bind.
    destruct (Stack.to_list s) as [s1 [values|e]]; exact Hl.
Qed.

Lemma drain_ok_exhausted (fuel : nat) (s s1 : Stack.t) (values : list pyval) :
  Stack.drain fuel s = (s1, Ok values) ->
  Stack.__next__ s1 = (s1, Raise StopIteration).
Proof.
  revert s values. induction fuel as [|fuel IH]; intros s values; [discriminate|].
  cbn [Stack.drain]. destruct (Stack.__next__ s) as [s' [v|e]] eqn:Hn.
  - unfold Stack.bind.
    destruct (Stack.drain fuel s') as [s2 [rest|e]] eqn:Hd; [|discriminate].
    unfold Stack.ret. intros H. injection H as <- _. now apply (IH s' rest).
  - destruct e; try discriminate. intros H. injection H as <- _.
    destruct s as [tp tm c]. revert Hn. unfold Stack.__next__. run_methods.
    destruct c as [cur|]; [|discriminate].
    destruct (value_eqb cur _SENTINEL) eqn:Hc; cbn [negb].
    + intros H. injection H as <-. run_methods. now rewrite Hc.
    + destruct (unpack2 cur) as [[below v]|e] eqn:Hu; [discriminate|].
      unfold unpack2 in Hu.
      destruct (iterate cur) as [[|a [|b [|]]]|]; try discriminate;
        injection Hu as <-; discriminate.
Qed.

(** An exhausted traversal stays exhausted: in any state, once
    [list(self)] has returned, [__next__] raises [StopIteration] and leaves
    the state as it is, however often it is called, until [__iter__] is
    called again. *)
Theorem exhausted_iterator_stays_exhausted (s s1 : Stack.t) (values : list pyval) :
  Stack.to_list s = (s1, Ok values) ->
  Stack.__next__ s1 = (s1, Raise StopIteration) /\
  forall fuel, Stack.drain (S fuel) s1 = (s1, Ok []).
Proof.
  unfold Stack.to_list, Stack.bind at 1, Stack.__iter__, Stack.bind at 1.
  unfold Stack.get at 1, Stack.set_iter_curr, Stack.bind, Stack.get.
  intros Hd. apply drain_ok_exhausted in Hd.
  split; [exact Hd|]. intros fuel. cbn [Stack.drain]. now rewrite Hd.
Qed.

Lemma exhausted_iterator_stays_exhausted_witness :
  Stack.__next__ (Stack.mk (chain [VInt 1; VInt 4]) (chain [VInt 1; VInt 4]) (Some _SENTINEL)) =
    (Stack.mk (chain [VInt 1; VInt 4]) (chain [VInt 1; VInt 4]) (Some _SENTINEL),
     Raise StopIteration) /\
  forall fuel,
    Stack.drain (S fuel)
      (Stack.mk (chain [VInt 1; VInt 4]) (chain [VInt 1; VInt 4]) (Some _SENTINEL)) =
    (Stack.mk (chain [VInt 1; VInt 4]) (chain [VInt 1; VInt 4]) (Some _SENTINEL), Ok []).
Proof.
  apply (exhausted_iterator_stays_exhausted
           (Stack.mk (chain [VInt 1; VInt 4]) (chain [VInt 1; VInt 4]) None)
           _ [VInt 1; VInt 4]).
  reflexivity.
Defined.

(** ** Popping too often *)

Lemma pop_times_beyond (values : list pyval) :
  forall (n : nat) (s : Stack.t),
    well_formed s values -> (List.length values < n)%nat ->
    pop_times n s =
    (Stack.mk _SENTINEL _SENTINEL (Stack.iter_curr s), Raise EmptyStackPopError).
Proof.
  induction values as [|v below IH]; intros [|n] s Hwf Hlt; try (simpl in Hlt; lia).
  - cbn [pop_times]. unfold Stack.bind at 1.
    rewrite (well_formed_eta s [] Hwf) at 1. reflexivity.
  - cbn [pop_times]. unfold Stack.bind at 1.
    rewrite (well_formed_eta s _ Hwf) at 1. rewrite pop_chain by apply Hwf.
    unfold Stack.bind at 1.
    rewrite (IH n (Stack.mk (chain below) (chain (aux_of below)) (Stack.iter_curr s)));
      [reflexivity | | simpl in Hlt; lia].
    repeat split. apply Hwf.
Qed.

(** More pops than the stack holds values: on a stack reached by pushes
    and pops that returned, over values totally ordered by [<=], the calls
    return until the stack is empty, then [EmptyStackPopError] is raised, and
    the stack is left empty, with both chains at the sentinel. *)
Theorem pop_beyond_depth_raises (P : pyval -> Prop) (s : Stack.t) (n : nat) :
  total_order P -> reachable P s ->
  (List.length (present_values (Stack.top s)) < n)%nat ->
  exists s', pop_times n s = (s', Raise EmptyStackPopError) /\
    Stack.is_empty s' = true /\ Stack.top_min s' = _SENTINEL.
Proof.
  intros _ Hr Hlt.
  destruct (reachable_well_formed P s Hr) as (values & Hwf & _).
  rewrite (proj1 Hwf), present_values_chain in Hlt.
  eexists. split; [apply (pop_times_beyond values n s Hwf Hlt)|]. now split.
Qed.

Lemma pop_beyond_depth_raises_witness :
  exists s',
    pop_times 3 (Stack.mk (chain [VInt 1; VInt 4]) (chain [VInt 1; VInt 4]) None) =
      (s', Raise EmptyStackPopError) /\
    Stack.is_empty s' = true /\ Stack.top_min s' = _SENTINEL.
Proof.
  apply (pop_beyond_depth_raises is_int).
  - exact int_total_order.
  - apply (reach_push _ (Stack.mk (chain [VInt 4]) (chain [VInt 4]) None) (VInt 1));
      [|exists 1; reflexivity | reflexivity].
    apply (reach_push _ (Stack.mk _SENTINEL _SENTINEL None) (VInt 4));
      [apply reach_new; reflexivity | exists 4; reflexivity | reflexivity].
  - vm_compute. lia.
Defined.

(** ** The constructor *)

Lemma push_each_keeps_cursor (items : list pyval) (s : Stack.t) :
  Stack.iter_curr (fst (Stack.push_each items s)) = Stack.iter_curr s.
Proof.
  revert s. induction items as [|v items IH]; intros s; [reflexivity|].
  cbn [Stack.push_each]. unfold Stack.bind at 1.
  pose proof (push_keeps_cursor s v) as Hc.
  destruct (Stack.push v s) as [s1 [u|e]]; cbn [fst] in *; [|exact Hc].
  now rewrite IH.
Qed.

Lemma push_chains (s : Stack.t) (v : pyval) :
  chains s ->
  chains (fst (Stack.push v s)) /\
  (snd (Stack.push v s) = Ok tt \/
   snd (Stack.push v s) = Raise IncomparableValueError \/
   snd (Stack.push v s) = Raise (ProtectedValueError "Stack._SENTINEL")).
Proof.
  intros (main & aux & Ht & Hm).
  rewrite (stack_eta s), Ht, Hm.
  destruct (value_eqb v _SENTINEL) eqn:Hs.
  - rewrite (push_sentinel _ v Hs). split; [now exists main, aux | auto].
  - rewrite (push_chain v main aux _ Hs).
    destruct aux as [|m rest].
    + split; [now exists (v :: main), [v] | auto].
    + destruct (py_le v m) as [[|]|]; (split; [|auto]).
      * now exists (v :: main), (v :: m :: rest).
      * now exists (v :: main), (m :: rest).
      * now exists (v :: main), (m :: rest).
Qed.

Lemma push_each_chains (items : list pyval) (s : Stack.t) :
  chains s ->
  chains (fst (Stack.push_each items s)) /\
  (snd (Stack.push_each items s) = Ok tt \/
   snd (Stack.push_each items s) = Raise IncomparableValueError \/
   snd (Stack.push_each items s) = Raise (ProtectedValueError "Stack._SENTINEL")).
Proof.
  revert s. induction items as [|v items IH]; intros s Hc.
  - split; [exact Hc | now left].
  - cbn [Stack.push_each]. unfold Stack.bind.
    destruct (push_chains s v Hc) as [Hc1 Hr].
    destruct (Stack.push v s) as [s1 [[]|e]]; cbn [fst snd] in *.
    + apply IH, Hc1.
    + split; [exact Hc1 | exact Hr].
Qed.

Lemma init_one_argument_outcomes (v : pyval) (s0 : Stack.t) :
  chains s0 ->
  chains (fst (Stack.try_except
                 (match iterate v with
                  | Some items => Stack.push_each items
                  | None => Stack.raise TypeError
                  end) is_TypeError (Stack.push v) s0)) /\
  Stack.iter_curr (fst (Stack.try_except
                 (match iterate v with
                  | Some items => Stack.push_each items
                  | None => Stack.raise TypeError
                  end) is_TypeError (Stack.push v) s0)) = Stack.iter_curr s0 /\
  (snd (Stack.try_except
                 (match iterate v with
                  | Some items => Stack.push_each items
                  | None => Stack.raise TypeError
                  end) is_TypeError (Stack.push v) s0) = Ok tt \/
   snd (Stack.try_except
                 (match iterate v with
                  | Some items => Stack.push_each items
                  | None => Stack.raise TypeError
                  end) is_TypeError (Stack.push v) s0) = Raise IncomparableValueError \/
   snd (Stack.try_except
                 (match iterate v with
                  | Some items => Stack.push_each items
                  | None => Stack.raise TypeError
                  end) is_TypeError (Stack.push v) s0) =
     Raise (ProtectedValueError "Stack._SENTINEL")).
Proof.
  intros H0. unfold Stack.try_except.
  set (loop := match iterate v with
               | Some items => Stack.push_each items
               | None => Stack.raise TypeError
               end).
  assert (Hloop : chains (fst (loop s0)) /\
                  Stack.iter_curr (fst (loop s0)) = Stack.iter_curr s0 /\
                  (snd (loop s0) = Ok tt \/ snd (loop s0) = Raise TypeError \/
                   snd (loop s0) = Raise IncomparableValueError \/
                   snd (loop s0) = Raise (ProtectedValueError "Stack._SENTINEL"))).
  { subst loop. destruct (iterate v) as [items|].
    - destruct (push_each_chains items s0 H0) as [Hc Hr].
      split; [exact Hc|]. split; [apply push_each_keeps_cursor|].
      destruct Hr as [Hr | [Hr | Hr]]; auto.
    - split; [exact H0|]. split; [reflexivity|]. right. left. reflexivity. }
  destruct (loop s0) as [s1 r1]. cbn [fst snd] in Hloop.
  destruct Hloop as (Hc1 & Hk1 & Hr1).
  assert (Hhandler :
    chains (fst (Stack.push v s1)) /\
    Stack.iter_curr (fst (Stack.push v s1)) = Stack.iter_curr s0 /\
    (snd (Stack.push v s1) = Ok tt \/
     snd (Stack.push v s1) = Raise IncomparableValueError \/
     snd (Stack.push v s1) = Raise (ProtectedValueError "Stack._SENTINEL"))).
  { destruct (push_chains s1 v Hc1) as [Hc2 Hr2].
    split; [exact Hc2|]. split; [|exact Hr2].
    now rewrite push_keeps_cursor. }
  destruct Hr1 as [ -> | [ -> | [ -> | -> ] ] ]; cbn [is_TypeError fst snd];
    try exact Hhandler; (split; [exact Hc1 | split; [exact Hk1 | auto]]).
Qed.

(** Every outcome of a call of the class: an instance whose attributes hold
    frame chains and whose cursor is not assigned, or one of three
    exceptions: [TypeError] (only for two or more arguments),
    [IncomparableValueError] or [ProtectedValueError]. *)
Theorem constructor_outcomes (values : list pyval) :
  match Stack.new values with
  | Ok s => chains s /\ Stack.iter_curr s = None /\ (List.length values <= 1)%nat
  | Raise e =>
      (e = TypeError /\ (2 <= List.length values)%nat) \/
      (e = IncomparableValueError /\ List.length values = 1%nat) \/
      (e = ProtectedValueError "Stack._SENTINEL" /\ List.length values = 1%nat)
  end.
Proof.
  assert (H0 : chains (Stack.mk _SENTINEL _SENTINEL None)) by now exists [], [].
  destruct values as [|v [|w rest]].
  - cbn. split; [exact H0 | split; [reflexivity | lia]].
  - change (Stack.new [v]) with
      (match Stack.try_except
               (match iterate v with
                | Some items => Stack.push_each items
                | None => Stack.raise TypeError
                end) is_TypeError (Stack.push v)
               (Stack.mk _SENTINEL _SENTINEL None) with
       | (self, Ok _) => Ok self
       | (_, Raise e) => Raise e
       end).
    destruct (init_one_argument_outcomes v _ H0) as (Hc & Hk & Hr).
    destruct (Stack.try_except _ _ _ _) as [s r]. cbn [fst snd] in *.
    destruct Hr as [ -> | [ -> | -> ] ]; cbn [List.length].
    + split; [exact Hc | split; [exact Hk | lia]].
    + right. left. now split.
    + right. right. now split.
  - cbn. left. split; [reflexivity | lia].
Qed.

(** [__next__] needs [__iter__] first: on every instance the constructor
    returns, whatever its arguments, [__next__] raises [AttributeError]
    (the cursor attribute does not exist yet) and changes nothing. *)
Theorem next_before_iter_raises (values : list pyval) (s : Stack.t) :
  Stack.new values = Ok s ->
  Stack.__next__ s = (s, Raise AttributeError).
Proof.
  intros Hnew.
  assert (Hc : Stack.iter_curr s = None).
  { destruct values as [|v [|w rest]].
    - cbn in Hnew. now injection Hnew as <-.
    - assert (H0 : chains (Stack.mk _SENTINEL _SENTINEL None)) by now exists [], [].
      destruct (init_one_argument_outcomes v _ H0) as (_ & Hk & _).
      revert Hnew.
      change (Stack.new [v]) with
        (match Stack.try_except
                 (match iterate v with
                  | Some items => Stack.push_each items
                  | None => Stack.raise TypeError
                  end) is_TypeError (Stack.push v)
                 (Stack.mk _SENTINEL _SENTINEL None) with
         | (self, Ok _) => Ok self
         | (_, Raise e) => Raise e
         end).
      destruct (Stack.try_except _ _ _ _) as [s1 [u|e]]; [|discriminate].
      intros H. injection H as <-. exact Hk.
    - discriminate. }
  unfold Stack.__next__, Stack.bind, Stack.get. now rewrite Hc.
Qed.

Lemma next_before_iter_raises_witness :
  Stack.__next__ (Stack.mk (chain [VInt 2; VInt 1]) (chain [VInt 1]) None) =
  (Stack.mk (chain [VInt 2; VInt 1]) (chain [VInt 1]) None, Raise AttributeError).
Proof.
  apply (next_before_iter_raises [VList [VInt 1; VInt 2]]). reflexivity.
Defined.

(** A single argument that is not iterable is pushed as one value: for
    [None] and for every integer [v], [Stack(v)] is the stack that holds
    [v] alone, and a [pop()] returns [v] and leaves it empty. *)
Theorem construct_from_single_value (v : pyval) :
  iterate v = None ->
  Stack.new [v] = Ok (Stack.mk (chain [v]) (chain [v]) None) /\
  Stack.pop (Stack.mk (chain [v]) (chain [v]) None) =
    (Stack.mk _SENTINEL _SENTINEL None, Ok v).
Proof.
  intros Hit. split.
  - unfold Stack.new, Stack.__init__, Stack.blank. run_methods. rewrite Hit.
    unfold Stack.raise. cbn [is_TypeError].
    destruct v; try discriminate; reflexivity.
  - change (chain [v]) with (chain (aux_of [v])) at 2.
    apply (pop_chain v [] None). now split.
Qed.

Lemma construct_from_single_value_witness :
  Stack.new [VInt 7] = Ok (Stack.mk (chain [VInt 7]) (chain [VInt 7]) None) /\
  Stack.pop (Stack.mk (chain [VInt 7]) (chain [VInt 7]) None) =
    (Stack.mk _SENTINEL _SENTINEL None, Ok (VInt 7)).
Proof.
  apply construct_from_single_value. reflexivity.
Defined.

Lemma push_each_comparable (P : pyval -> Prop) (items : list pyval) :
  comparable P -> Forall P items -> Forall non_sentinel items ->
  forall (s : Stack.t) (values : list pyval),
    reachable P s -> well_formed s values -> Forall P values ->
    exists s', Stack.push_each items s = (s', Ok tt) /\
      well_formed s' (rev items ++ values) /\
      Stack.iter_curr s' = Stack.iter_curr s /\ reachable P s'.
Proof.
  intros HP. induction items as [|v items IH]; intros Hall Hns s values Hr Hwf Hvals.
  - exists s. split; [reflexivity | split; [exact Hwf | split; [reflexivity | exact Hr]]].
  - inversion Hall as [|? ? Hv Hall']; inversion Hns as [|? ? Hnv Hns']; subst.
    destruct (push_defined s v values Hwf Hnv) as [s1 Hpush].
    { intros m Hm. apply HP; [exact Hv|].
      exact (proj1 (Forall_forall P values) Hvals m Hm). }
    destruct (push_returns s s1 v values Hwf Hpush) as (Hwf1 & Hc1 & _).
    destruct (IH Hall' Hns' s1 (v :: values) (reach_push P s v s1 Hr Hv Hpush)
                Hwf1 (Forall_cons _ Hv Hvals))
      as (s' & Hrun & Hwf' & Hc' & Hr').
    exists s'. cbn [Stack.push_each]. unfold Stack.bind at 1. rewrite Hpush.
    split; [exact Hrun|]. split; [|split; [congruence | exact Hr']].
    simpl. now rewrite <- app_assoc.
Qed.

Lemma chars_are_str (s : string) : Forall is_str (chars s).
Proof. induction s; constructor; [now eexists | assumption]. Qed.

Lemma chars_non_sentinel (s : string) : Forall non_sentinel (chars s).
Proof. induction s; constructor; [reflexivity | assumption]. Qed.

Lemma str_comparable : comparable is_str.
Proof. intros x y [a ->] [b ->]. discriminate. Qed.

(** A string argument is iterated, not pushed whole: [Stack(text)] always
    returns, and the stack holds the characters of [text], one value each,
    the last character on top. *)
Theorem construct_from_string (text : string) :
  exists s,
    Stack.new [VStr text] = Ok s /\
    present_values (Stack.top s) = rev (chars text) /\
    snd (Stack.to_list s) = Ok (rev (chars text)) /\
    reachable is_str s.
Proof.
  destruct (push_each_comparable is_str (chars text) str_comparable
              (chars_are_str text) (chars_non_sentinel text)
              (Stack.mk _SENTINEL _SENTINEL None) [])
    as (s & Hrun & Hwf & _ & Hr);
    [apply reach_new; reflexivity | now repeat split | constructor |].
  rewrite app_nil_r in Hwf. exists s. split; [|split; [|split]].
  - unfold Stack.new, Stack.__init__, Stack.blank. run_methods.
    cbn [iterate]. now rewrite Hrun.
  - rewrite (proj1 Hwf). apply present_values_chain.
  - now rewrite (to_list_well_formed s _ (proj1 Hwf)).
  - exact Hr.
Qed.

(** [IncomparableValueError] is a [TypeError], so the constructor's
    [except TypeError] also catches a failed push of an item and then pushes
    the whole argument as one value.  For every integer, string or list [x],
    [Stack(((), x))] returns a stack of three values: the tuple itself on top
    of [x] (whose push raised) and [()]; its [min()] is [()], which cannot be
    compared with [x]. *)
Theorem constructor_keeps_failed_item (x : pyval) :
  x <> VNone -> (forall items, x <> VTuple items) ->
  exists s,
    Stack.new [VTuple [VTuple []; x]] = Ok s /\
    present_values (Stack.top s) = [VTuple [VTuple []; x]; x; VTuple []] /\
    Stack.min s = (s, Ok (VTuple [])) /\
    py_le x (VTuple []) = None /\ py_le (VTuple []) x = None.
Proof.
  intros Hnone Htuple.
  exists (Stack.mk (chain [VTuple [VTuple []; x]; x; VTuple []]) (chain [VTuple []]) None).
  assert (Hx : value_eqb x _SENTINEL = false).
  { destruct x as [| | |items|]; try reflexivity. now destruct (Htuple items). }
  assert (Hle : py_le x (VTuple []) = None).
  { destruct x as [| | |items|]; try reflexivity. now destruct (Htuple items). }
  assert (Harg : value_eqb (VTuple [VTuple []; x]) _SENTINEL = false).
  { cbn. destruct x; try reflexivity. congruence. }
  split; [|split; [|split; [reflexivity | split; [exact Hle|]]]].
  - unfold Stack.new, Stack.__init__, Stack.blank. run_methods. cbn [iterate].
    cbn [Stack.push_each]. unfold Stack.bind at 1.
    change (Stack.mk _SENTINEL _SENTINEL None) with (Stack.mk (chain []) (chain []) None).
    rewrite (push_chain (VTuple []) [] [] None eq_refl).
    unfold Stack.bind at 1. rewrite (push_chain x [VTuple []] [VTuple []] None Hx), Hle.
    cbn [is_TypeError].
    rewrite (push_chain _ [x; VTuple []] [VTuple []] None Harg).
    reflexivity.
  - apply (present_values_chain [VTuple [VTuple []; x]; x; VTuple []]).
  - destruct x as [| | |items|]; try reflexivity. congruence.
Qed.

Lemma constructor_keeps_failed_item_witness :
  exists s,
    Stack.new [VTuple [VTuple []; VInt 1]] = Ok s /\
    present_values (Stack.top s) = [VTuple [VTuple []; VInt 1]; VInt 1; VTuple []] /\
    Stack.min s = (s, Ok (VTuple [])) /\
    py_le (VInt 1) (VTuple []) = None /\ py_le (VTuple []) (VInt 1) = None.
Proof.
  apply (constructor_keeps_failed_item (VInt 1)); [discriminate|].
  intros items. discriminate.
Defined.

(** ** Recovering from a failed push *)




(** ** [str(stack)] and a stack built from a stack *)

(** [str(stack)] of a reachable stack returns the string forms of its
    values from top to bottom, joined by ["->"] (the empty string for an
    empty stack), and assigns nothing but the cursor. *)
Theorem str_joins_traversal (str : pyval -> string) (P : pyval -> Prop) (s : Stack.t) :
  reachable P s ->
  exists s',
    __str__ str s =
      (s', Ok (String.concat "->" (map str (present_values (Stack.top s))))) /\
    Stack.top s' = Stack.top s /\ Stack.top_min s' = Stack.top_min s /\
    (Stack.is_empty s = true -> snd (__str__ str s) = Ok "").
Proof.
  intros Hr.
  destruct (reachable_well_formed P s Hr) as (values & Hwf & _).
  pose proof Hwf as (Ht & _).
  assert (Hstr : __str__ str s =
    (Stack.mk (Stack.top s) (Stack.top_min s) (Some _SENTINEL),
     Ok (String.concat "->" (map str values)))).
  { unfold __str__, Stack.bind. now rewrite (to_list_well_formed s values Ht). }
  eexists. rewrite Ht at 1. rewrite present_values_chain.
  split; [exact Hstr|]. split; [reflexivity|]. split; [reflexivity|].
  intros He. rewrite Hstr. now rewrite (empty_well_formed s values Hwf He).
Qed.

Lemma str_joins_traversal_witness :
  exists s',
    __str__ (fun _ => "x") (Stack.mk (chain [VInt 1; VInt 4]) (chain [VInt 1; VInt 4]) None) =
      (s', Ok (String.concat "->"
                 (map (fun _ => "x") (present_values (chain [VInt 1; VInt 4]))))) /\
    Stack.top s' = chain [VInt 1; VInt 4] /\ Stack.top_min s' = chain [VInt 1; VInt 4] /\
    (Stack.is_empty (Stack.mk (chain [VInt 1; VInt 4]) (chain [VInt 1; VInt 4]) None) = true ->
     snd (__str__ (fun _ => "x")
            (Stack.mk (chain [VInt 1; VInt 4]) (chain [VInt 1; VInt 4]) None)) = Ok "").
Proof.
  apply (str_joins_traversal (fun _ => "x") (fun _ => True)
           (Stack.mk (chain [VInt 1; VInt 4]) (chain [VInt 1; VInt 4]) None)).
  apply (reach_push _ (Stack.mk (chain [VInt 4]) (chain [VInt 4]) None) (VInt 1));
    [|exact I | reflexivity].
  apply (reach_push _ (Stack.mk _SENTINEL _SENTINEL None) (VInt 4));
    [apply reach_new; reflexivity | exact I | reflexivity].
Defined.

Lemma for_push_chain (items : list pyval) :
  forall (fuel : nat) (tp tm : pyval) (self self' : Stack.t),
    (List.length items < fuel)%nat ->
    Stack.push_each items self = (self', Ok tt) ->
    for_push fuel (Stack.mk tp tm (Some (chain items))) self =
    (Stack.mk tp tm (Some _SENTINEL), self', Ok tt).
Proof.
  induction items as [|v items IH]; intros [|fuel] tp tm self self' Hlt Hrun;
    try (simpl in Hlt; lia).
  - cbn in Hrun. injection Hrun as <-. reflexivity.
  - cbn [for_push]. rewrite next_chain_cons.
    cbn [Stack.push_each] in Hrun. unfold Stack.bind at 1 in Hrun.
    destruct (Stack.push v self) as [s1 [[]|e]]; [|discriminate].
    apply IH; [simpl in Hlt; lia | exact Hrun].
Qed.

(** A stack built from a stack holds its values in the opposite order
    (what [test_Stack__init__with_Stack_object_argument] checks): for a
    reachable stack [other] over values that can be compared with each
    other, [Stack(other)] returns, whatever the handler would do; a traversal
    of the new stack yields the reverse of a traversal of [other]; and
    [other] keeps [top] and [top_min], with its cursor left exhausted. *)
Theorem construct_from_stack_reverses
    (P : pyval -> Prop) (push_instance : Stack.M unit) (other : Stack.t) :
  comparable P -> reachable P other ->
  exists other' s,
    new_from_stack push_instance other = (other', Ok s) /\
    present_values (Stack.top s) = rev (present_values (Stack.top other)) /\
    Stack.top other' = Stack.top other /\
    Stack.top_min other' = Stack.top_min other /\
    Stack.iter_curr other' = Some _SENTINEL /\
    reachable P s.
Proof.
  intros HP Hr.
  destruct (reachable_values P other Hr) as (values & Hwf & Hall & Hns).
  pose proof Hwf as (Ht & _).
  destruct (push_each_comparable P values HP Hall Hns
              (Stack.mk _SENTINEL _SENTINEL None) [])
    as (s & Hrun & Hwfs & _ & Hrs);
    [apply reach_new; reflexivity | now repeat split | constructor |].
  rewrite app_nil_r in Hwfs.
  exists (Stack.mk (Stack.top other) (Stack.top_min other) (Some _SENTINEL)), s.
  split; [|split; [|now repeat split]].
  - unfold new_from_stack, Stack.__iter__. run_methods.
    destruct other as [tp tm c]. cbn [Stack.top Stack.top_min fst] in *. subst tp.
    rewrite (for_push_chain values _ _ tm _ s); [reflexivity | | exact Hrun].
    pose proof (vsize_chain values). lia.
  - rewrite (proj1 Hwfs), Ht, !present_values_chain. reflexivity.
Qed.

Lemma construct_from_stack_reverses_witness :
  exists other' s,
    new_from_stack (Stack.raise IncomparableValueError)
      (Stack.mk (chain [VInt 9; VInt 1; VInt 4]) (chain [VInt 1; VInt 4]) None) =
      (other', Ok s) /\
    present_values (Stack.top s) = rev (present_values (chain [VInt 9; VInt 1; VInt 4])) /\
    Stack.top other' = chain [VInt 9; VInt 1; VInt 4] /\
    Stack.top_min other' = chain [VInt 1; VInt 4] /\
    Stack.iter_curr other' = Some _SENTINEL /\
    reachable is_int s.
Proof.
  apply (construct_from_stack_reverses is_int (Stack.raise IncomparableValueError)
           (Stack.mk (chain [VInt 9; VInt 1; VInt 4]) (chain [VInt 1; VInt 4]) None)).
  - exact (to_defined is_int int_total_order).
  - apply (reach_push _ (Stack.mk (chain [VInt 1; VInt 4]) (chain [VInt 1; VInt 4]) None) (VInt 9));
      [|exists 9; reflexivity | reflexivity].
    apply (reach_push _ (Stack.mk (chain [VInt 4]) (chain [VInt 4]) None) (VInt 1));
      [|exists 1; reflexivity | reflexivity].
    apply (reach_push _ (Stack.mk _SENTINEL _SENTINEL None) (VInt 4));
      [apply reach_new; reflexivity | exists 4; reflexivity | reflexivity].
Defined.

(** Construction from a sequence is [Stack()] followed by a push of each
    item in order: for a list or tuple of values that can be compared with
    each other, none the sentinel, the constructor returns exactly the state
    those pushes produce, a traversal of it yields the items last to first,
    and it is a reachable stack. *)
Theorem construct_from_sequence_is_pushes
    (P : pyval -> Prop) (items : list pyval) (seq : pyval) :
  comparable P -> Forall P items -> Forall non_sentinel items ->
  seq = VList items \/ seq = VTuple items ->
  exists s empty,
    Stack.new [] = Ok empty /\
    Stack.push_each items empty = (s, Ok tt) /\
    Stack.new [seq] = Ok s /\
    present_values (Stack.top s) = rev items /\
    reachable P s.
Proof.
  intros HP Hall Hns Hseq.
  destruct (push_each_comparable P items HP Hall Hns
              (Stack.mk _SENTINEL _SENTINEL None) [])
    as (s & Hrun & Hwf & _ & Hr);
    [apply reach_new; reflexivity | now repeat split | constructor |].
  rewrite app_nil_r in Hwf.
  exists s, (Stack.mk _SENTINEL _SENTINEL None).
  split; [reflexivity|]. split; [exact Hrun|]. split; [|split; [|exact Hr]].
  - unfold Stack.new, Stack.__init__, Stack.blank. run_methods.
    assert (Hit : iterate seq = Some items) by (destruct Hseq; subst; reflexivity).
    rewrite Hit. now rewrite Hrun.
  - rewrite (proj1 Hwf). apply present_values_chain.
Qed.

Lemma construct_from_sequence_is_pushes_witness :
  exists s empty,
    Stack.new [] = Ok empty /\
    Stack.push_each [VStr "b"; VStr "a"] empty = (s, Ok tt) /\
    Stack.new [VTuple [VStr "b"; VStr "a"]] = Ok s /\
    present_values (Stack.top s) = rev [VStr "b"; VStr "a"] /\
    reachable is_str s.
Proof.
  apply (construct_from_sequence_is_pushes is_str [VStr "b"; VStr "a"]).
  - exact str_comparable.
  - repeat constructor; eexists; reflexivity.
  - repeat constructor.
  - right. reflexivity.
Defined.
